(** * web-fs: the hierarchical traversal engine of [WebFsDirectoryHandle]

    A shallow embedding of the directory handle of the web-fs library
    (path resolution, directory-chain walking, the depth-bounded tree
    builder, the glob engine and the tree renderer) together with the
    properties stated about it.

    Conventions of the embedding:
    - JavaScript strings are [string]s (byte sequences; only concatenation,
      comparison and splitting on ['/'] are used, so the encoding of the
      box-drawing characters does not matter);
    - the host file system is a finite tree of entries; a host handle is a
      reference to a position of that tree;
    - the recursive asynchronous traversals take the enumeration of a
      directory by the host as a parameter, and a [fuel] argument that
      bounds the recursion depth; [None] means that the fuel ran out or
      that a call threw (a host enumeration, or the matcher on an empty
      pattern), and on a host that answers from the tree each traversal
      is shown to return once the fuel exceeds the height of the tree;
    - operations wrapped in [try { ... } catch] run in a state-and-exception
      monad over the host tree;
    - the depth of a listing is an integer ([Z]) in the operations; the
      tree builder is given on JavaScript numbers as well ([_tree_number]),
      where a ceiling need not be an integer. *)

From Stdlib Require Import List String Ascii Bool Arith ZArith Lia.
From Stdlib Require Strings.Byte.
From Stdlib Require QArith.
Import ListNotations.
Local Open Scope string_scope.
Local Open Scope list_scope.

Set Implicit Arguments.
Set Warnings "-register-all".

(** Concatenation of strings, written apart from the append of lists. *)
Infix "+++" := String.append (right associativity, at level 60).

(* ================================================================== *)
(** ** JavaScript string and array primitives used by the source        *)
(* ================================================================== *)

Module Js.

(** [s.split(sep)] for a one-character separator: always at least one
    piece, [""] splits into [[""]]. *)
Fixpoint split (sep : ascii) (s : string) : list string :=
  match s with
  | EmptyString => [EmptyString]
  | String c rest =>
      if Ascii.eqb c sep then EmptyString :: split sep rest
      else match split sep rest with
           | [] => [String c EmptyString]
           | seg :: segs => String c seg :: segs
           end
  end.

(** [a.join(sep)]. *)
Fixpoint join (sep : string) (a : list string) : string :=
  match a with
  | [] => ""
  | [x] => x
  | x :: rest => x +++ sep +++ join sep rest
  end.

(** [a.slice(1)]. *)
Definition slice1 (a : list string) : list string := tl a.

(** [a.pop()]: the removed last element ([None] is [undefined], on an
    empty array) and the array that is left. *)
Definition pop (a : list string) : option string * list string :=
  match a with
  | [] => (None, [])
  | _ => (Some (last a ""), removelast a)
  end.

(** [x === s] for a value [x] that may be [undefined] and a string [s]. *)
Definition strict_eq (x : option string) (s : string) : bool :=
  match x with
  | Some x' => String.eqb x' s
  | None => false
  end.

(** Conversion of a possibly [undefined] argument to the string a host
    method receives. *)
Definition to_string (x : option string) : string :=
  match x with
  | Some s => s
  | None => "undefined"
  end.

(** [a.entries()]: the elements paired with their indices. *)
Definition entries (A : Type) (a : list A) : list (Z * A) :=
  combine (map Z.of_nat (seq 0 (List.length a))) a.

(** Does the string contain the character? *)
Fixpoint contains (c : ascii) (s : string) : bool :=
  match s with
  | EmptyString => false
  | String c' rest => Ascii.eqb c' c || contains c rest
  end.

End Js.

(* ================================================================== *)
(** ** JavaScript numbers                                               *)
(* ================================================================== *)

Module Number.

(** The depth ceiling and the depth counter of the tree builder are
    JavaScript [number]s: the code adds 1 to the counter and compares it
    with the ceiling by [===]. A number is taken as a rational here, so a
    ceiling such as 1.5 has a value; NaN and the infinities are left out. *)
Definition number : Type := QArith_base.Q.

Definition of_Z (z : Z) : number := QArith_base.inject_Z z.

(** [a === b] on numbers. *)
Definition strict_eq (a b : number) : bool := QArith_base.Qeq_bool a b.

(** [a + b]. *)
Definition add (a b : number) : number := QArith_base.Qplus a b.

Definition le (a b : number) : Prop := QArith_base.Qle a b.

(** 1.5. *)
Definition three_halves : number := QArith_base.Qmake 3 2.

End Number.

(* ================================================================== *)
(** ** The [node:path] polyfill                                         *)
(* ================================================================== *)

Module Path.

(** Modelled from the spec: [path.resolve] and [path.sep] come from the
    browser polyfill of [node:path], which is not part of the sources.
    Section 4.2: the path is normalised ([.] and [..] resolved, separators
    collapsed) against a synthetic root, the working directory of the
    polyfilled process, which is ["/"]. *)
Definition sep : ascii := "/"%char.

Definition cwd : string := "/".

(** One step of the normalisation: the stack of segments kept so far
    (innermost last) and the next segment. Above the root [..] is dropped. *)
Definition normalize_step (acc : list string) (seg : string) : list string :=
  if String.eqb seg "" then acc
  else if String.eqb seg "." then acc
  else if String.eqb seg ".." then removelast acc
  else acc ++ [seg].

Definition normalize (p : string) : string :=
  Js.join "/" (fold_left normalize_step (Js.split sep p) []).

Definition is_absolute (p : string) : bool :=
  match p with
  | String c _ => Ascii.eqb c sep
  | EmptyString => false
  end.

(** [path.resolve(p)] with one argument. *)
Definition resolve (p : string) : string :=
  let resolvedPath :=
    if String.eqb p "" then cwd +++ "/"
    else if is_absolute p then p +++ "/"
    else cwd +++ "/" +++ p +++ "/" in
  "/" +++ normalize resolvedPath.

End Path.

(* ================================================================== *)
(** ** The host entry provider                                          *)
(* ================================================================== *)

Module Host.

(** [FileSystemHandleKind]. *)
Inductive Kind : Type := kind_file | kind_directory.

Definition Kind_eqb (a b : Kind) : bool :=
  match a, b with
  | kind_file, kind_file | kind_directory, kind_directory => true
  | _, _ => false
  end.

(** The host tree: a file, or a directory with its children in the order
    in which the host enumerates them. *)
Inductive Entry : Type :=
| File (n : string)
| Directory (n : string) (children : list Entry).

Definition entry_name (e : Entry) : string :=
  match e with
  | File n => n
  | Directory n _ => n
  end.

Definition entry_kind (e : Entry) : Kind :=
  match e with
  | File _ => kind_file
  | Directory _ _ => kind_directory
  end.

Definition entry_children (e : Entry) : list Entry :=
  match e with
  | File _ => []
  | Directory _ cs => cs
  end.

(** Number of directory levels of an entry. *)
Fixpoint height (e : Entry) : nat :=
  match e with
  | File _ => 0
  | Directory _ cs => S (list_max (map height cs))
  end.

(** A [FileSystemHandle]: the position of an entry (the names on the way
    from the directory the library was handed) and the entry found there. *)
Record FileSystemHandle : Type := mkHandle {
  h_loc : list string;
  h_ent : Entry
}.

Definition name (h : FileSystemHandle) : string := entry_name (h_ent h).

Definition kind (h : FileSystemHandle) : Kind := entry_kind (h_ent h).

Definition child_handle (loc : list string) (e : Entry) : FileSystemHandle :=
  mkHandle (loc ++ [entry_name e]) e.

(** The handles of the children of a directory, in host order. *)
Definition values (cd : FileSystemHandle) : list FileSystemHandle :=
  map (child_handle (h_loc cd)) (entry_children (h_ent cd)).

(** [Array.fromAsync(cd.values())] on a host that answers every call from
    the tree: the enumeration succeeds. *)
Definition enumerate_tree (cd : FileSystemHandle) : option (list FileSystemHandle) :=
  Some (values cd).

(** A host on which every enumeration fails. *)
Definition enumerate_failing (cd : FileSystemHandle) : option (list FileSystemHandle) :=
  None.

(** [FileSystemPermissionMode] and [PermissionState]. *)
Inductive PermissionMode : Type := read | readwrite.

Inductive PermissionState : Type := granted | denied | prompt.

Definition is_granted (s : PermissionState) : bool :=
  match s with
  | granted => true
  | _ => false
  end.

(** Modelled from the spec: the mutating calls of the host entry provider
    (section 6: get child by name, optionally creating it, and remove entry
    by name) are host code. The directory a [WebFsDirectoryHandle] wraps is
    the root of the [World]; a handle is looked up by its position. A name
    is valid when it is a single path segment. The calls fail on an invalid
    name, on a missing entry and on an entry of the other kind; the other
    failures of a host (a permission that is denied, names that a given
    host refuses, faults) are outside the model. *)
Definition World : Type := Entry.

Inductive DOMException : Type :=
| TypeError
| NotFoundError
| TypeMismatchError
| InvalidModificationError.

Definition valid_name (n : string) : bool :=
  negb (String.eqb n "") && negb (String.eqb n ".") && negb (String.eqb n "..")
  && negb (Js.contains "/"%char n).

Definition find_child (n : string) (cs : list Entry) : option Entry :=
  find (fun c => String.eqb (entry_name c) n) cs.

Fixpoint lookup (loc : list string) (e : Entry) : option Entry :=
  match loc with
  | [] => Some e
  | n :: rest =>
      match find_child n (entry_children e) with
      | Some c => lookup rest c
      | None => None
      end
  end.

Fixpoint replace_child (n : string) (g : Entry -> Entry) (cs : list Entry) : list Entry :=
  match cs with
  | [] => []
  | c :: rest =>
      if String.eqb (entry_name c) n then g c :: rest
      else c :: replace_child n g rest
  end.

(** Rewrite the child list of the directory at [loc]. *)
Fixpoint update (loc : list string) (f : list Entry -> list Entry) (e : Entry) : Entry :=
  match e with
  | File _ => e
  | Directory n cs =>
      match loc with
      | [] => Directory n (f cs)
      | s :: rest => Directory n (replace_child s (update rest f) cs)
      end
  end.

Fixpoint remove_child (n : string) (cs : list Entry) : list Entry :=
  match cs with
  | [] => []
  | c :: rest =>
      if String.eqb (entry_name c) n then rest
      else c :: remove_child n rest
  end.

(** What a host call leaves behind: a value or an exception. *)
Inductive Outcome (A : Type) : Type :=
| Returned (a : A)
| Thrown (e : DOMException).

Arguments Thrown {A} e.

(** Host calls and the code between them: the world is threaded through,
    and it keeps the changes made before an exception. *)
Definition M (A : Type) : Type := World -> Outcome A * World.

Definition ret (A : Type) (a : A) : M A := fun w => (Returned a, w).

Definition throw (A : Type) (e : DOMException) : M A := fun w => (Thrown e, w).

Definition bind (A B : Type) (m : M A) (k : A -> M B) : M B :=
  fun w =>
    match m w with
    | (Returned a, w') => k a w'
    | (Thrown e, w') => (Thrown e, w')
    end.

(** [try { m } catch { return fallback }]. *)
Definition try_catch (A : Type) (m : M A) (fallback : A) : World -> A * World :=
  fun w =>
    match m w with
    | (Returned a, w') => (a, w')
    | (Thrown _, w') => (fallback, w')
    end.

Definition get_child (want : Kind) (cd : FileSystemHandle) (n : string)
    (create : bool) : M FileSystemHandle :=
  fun w =>
    if negb (valid_name n) then (Thrown TypeError, w)
    else
      match lookup (h_loc cd) w with
      | Some (Directory _ cs) =>
          match find_child n cs with
          | Some c =>
              if Kind_eqb (entry_kind c) want
              then (Returned (child_handle (h_loc cd) c), w)
              else (Thrown TypeMismatchError, w)
          | None =>
              if create then
                let c := match want with
                         | kind_file => File n
                         | kind_directory => Directory n []
                         end in
                (Returned (child_handle (h_loc cd) c),
                 update (h_loc cd) (fun l => l ++ [c]) w)
              else (Thrown NotFoundError, w)
          end
      | _ => (Thrown NotFoundError, w)
      end.

(** [cd.getDirectoryHandle(n, { create })]. *)
Definition getDirectoryHandle := get_child kind_directory.

(** [cd.getFileHandle(n, { create })]. *)
Definition getFileHandle := get_child kind_file.

(** [cd.removeEntry(n, { recursive })]. *)
Definition removeEntry (cd : FileSystemHandle) (n : string) (recursive : bool) : M unit :=
  fun w =>
    if negb (valid_name n) then (Thrown TypeError, w)
    else
      match lookup (h_loc cd) w with
      | Some (Directory _ cs) =>
          match find_child n cs with
          | Some c =>
              match entry_children c with
              | _ :: _ =>
                  if recursive
                  then (Returned tt, update (h_loc cd) (remove_child n) w)
                  else (Thrown InvalidModificationError, w)
              | [] => (Returned tt, update (h_loc cd) (remove_child n) w)
              end
          | None => (Thrown NotFoundError, w)
          end
      | _ => (Thrown NotFoundError, w)
      end.

End Host.

Notation "x <- m ;; k" := (Host.bind m (fun x => k))
  (at level 61, m at next level, right associativity).

(* ================================================================== *)
(** ** [WebFsDirectoryHandle]                                           *)
(* ================================================================== *)

Import Host.

(** The option monad of the fuelled traversals. *)
Definition obind (A B : Type) (o : option A) (k : A -> option B) : option B :=
  match o with
  | Some a => k a
  | None => None
  end.

Notation "x <-? o ;; k" := (obind o (fun x => k))
  (at level 61, o at next level, right associativity).

(** [for (const x of xs) { ... await f(x) ... }], collecting the results. *)
Fixpoint for_each (A B : Type) (f : A -> option B) (xs : list A) : option (list B) :=
  match xs with
  | [] => Some []
  | x :: rest =>
      y <-? f x ;;
      ys <-? for_each f rest ;;
      Some (y :: ys)
  end.

(** [xs.filter(x => f(x))] where the callback may throw. *)
Fixpoint filter_each (A : Type) (f : A -> option bool) (xs : list A) : option (list A) :=
  match xs with
  | [] => Some []
  | x :: rest =>
      keep <-? f x ;;
      ys <-? filter_each f rest ;;
      Some (if keep then x :: ys else ys)
  end.

Inductive FilterType : Type := f_none | f_file | f_dir | f_all.

Definition toFilterType (file dir : bool) : FilterType :=
  if file && dir then f_all
  else if negb file && negb dir then f_none
  else if file then f_file else f_dir.

(** [WebFsTreeResult]: [children] is [None] for [undefined]. *)
Inductive WebFsTreeResult : Type :=
| TreeResult (handle : FileSystemHandle) (children : option (list WebFsTreeResult)).

Definition handle (t : WebFsTreeResult) : FileSystemHandle :=
  match t with TreeResult h _ => h end.

Definition children (t : WebFsTreeResult) : option (list WebFsTreeResult) :=
  match t with TreeResult _ c => c end.

(** The wrappers handed to the caller. *)
Record WebFsFileHandle : Type := mkWebFsFileHandle { fh_handle : FileSystemHandle }.

Record WebFsDirectoryHandle : Type := mkWebFsDirectoryHandle { _handle : FileSystemHandle }.

Inductive WebFsEntry : Type :=
| IsFile (f : WebFsFileHandle)
| IsDirectory (d : WebFsDirectoryHandle).

(** [WebFsEntryListOptions], [WebFsGetFileOptions] and
    [WebFsGetDirectoryOptions]: a missing field is [None]. *)
Record WebFsEntryListOptions : Type := mkListOptions {
  opt_file : option bool;
  opt_dir : option bool;
  opt_depth : option Z
}.

Record WebFsGetOptions : Type := mkGetOptions {
  opt_create : option bool;
  opt_mode : option PermissionMode
}.

Definition default (A : Type) (d : A) (o : option A) : A :=
  match o with
  | Some a => a
  | None => d
  end.

(** [options?.create] and [options?.mode]. *)
Definition create_of (options : option WebFsGetOptions) : option bool :=
  match options with
  | Some o => opt_create o
  | None => None
  end.

Definition mode_of (options : option WebFsGetOptions) : option PermissionMode :=
  match options with
  | Some o => opt_mode o
  | None => None
  end.

Section DirectoryHandle.

(** The external collaborators of section 6: the pattern matcher (the
    answer of [micromatch.isMatch candidate pattern] on a pattern it
    accepts) and the permission broker, whose answers are a function of the
    handle and the mode asked for. *)
Variable isMatch : string -> string -> bool.
Variable queryPermission : FileSystemHandle -> PermissionMode -> PermissionState.
Variable requestPermission : FileSystemHandle -> PermissionMode -> PermissionState.

(** The enumeration of a directory by the host entry provider,
    [Array.fromAsync(cd.values())]; [None] when the call fails. The
    traversals catch nothing: a failed call, like exhausted fuel, leaves
    them without a result. *)
Variable enumerate : FileSystemHandle -> option (list FileSystemHandle).

(** [WebFsHandle._verifyPermission]. *)
Definition _verifyPermission (h : FileSystemHandle) (mode : PermissionMode) : bool :=
  if is_granted (queryPermission h mode) then true
  else if is_granted (requestPermission h mode) then true
  else false.

(** [WebFsFileHandle.create] and [WebFsDirectoryHandle.create]. *)
Definition WebFsFileHandle_create (h : FileSystemHandle)
    (mode : option PermissionMode) : option WebFsFileHandle :=
  let instance := mkWebFsFileHandle h in
  let verified := _verifyPermission h (default read mode) in
  if negb verified then None else Some instance.

Definition WebFsDirectoryHandle_create (h : FileSystemHandle)
    (mode : option PermissionMode) : option WebFsDirectoryHandle :=
  let instance := mkWebFsDirectoryHandle h in
  let verified := _verifyPermission h (default read mode) in
  if negb verified then None else Some instance.

(** [(await Promise.all(xs)).filter(x => x !== undefined)]. *)
Fixpoint defined (A : Type) (xs : list (option A)) : list A :=
  match xs with
  | [] => []
  | Some x :: rest => x :: defined rest
  | None :: rest => defined rest
  end.

Definition _filterEntry (type : FilterType) (entries : list FileSystemHandle)
    : list FileSystemHandle :=
  match type with
  | f_none => []
  | _ =>
      filter (fun entry =>
                match type with
                | f_all => true
                | f_file => Kind_eqb (kind entry) kind_file
                | _ => Kind_eqb (kind entry) kind_directory
                end) entries
  end.

(** *** Glob *)

(** [micromatch.isMatch(candidate, pattern)]: the library throws a
    TypeError unless the pattern is a non-empty string. *)
Definition micromatch_isMatch (candidate : string) (pattern : option string)
    : option bool :=
  match pattern with
  | Some p => if String.eqb p "" then None else Some (isMatch candidate p)
  | None => None
  end.

Fixpoint _glob (fuel : nat) (patterns : list string) (patternIndex : nat)
    (cd : FileSystemHandle) (path : string) : option (list FileSystemHandle) :=
  match fuel with
  | O => None
  | S fuel' =>
      entries <-? enumerate cd ;;
      let currentPattern := nth_error patterns patternIndex in
      let isLast := Z.eqb (Z.of_nat patternIndex) (Z.of_nat (List.length patterns) - 1) in
      let dirs := _filterEntry f_dir entries in
      let files := _filterEntry f_file entries in
      if isLast then
        matchedFiles <-? filter_each
          (fun entry => micromatch_isMatch (path +++ name entry)
                          (Some (Js.join "/" patterns)))
          files ;;
        Some matchedFiles
      else
      if Js.strict_eq currentPattern "**" then
        files' <-? _glob fuel' patterns (List.length patterns - 1) cd path ;;
        below <-? for_each (fun dir =>
                    _glob fuel' patterns patternIndex dir (path +++ name dir +++ "/"))
                  dirs ;;
        Some (files' ++ List.concat below)
      else
        matchedDirs <-? filter_each
          (fun entry => micromatch_isMatch (name entry) currentPattern) dirs ;;
        below <-? for_each (fun dir =>
                    _glob fuel' patterns (patternIndex + 1) dir (path +++ name dir +++ "/"))
                  matchedDirs ;;
        Some (List.concat below)
  end.

Definition glob (fuel : nat) (this : WebFsDirectoryHandle) (pattern : string)
    : option (list WebFsFileHandle) :=
  if String.eqb pattern "" then Some []
  else
    let patterns := Js.split "/"%char pattern in
    entries <-? _glob fuel patterns 0 (_handle this) "" ;;
    let result := map (fun entry => WebFsFileHandle_create entry None) entries in
    Some (defined result).

(** *** The tree builder and the listings *)

Definition is_none (type : FilterType) : bool :=
  match type with
  | f_none => true
  | _ => false
  end.

Fixpoint _tree (fuel : nat) (type : FilterType) (maxDepth depth : Z)
    (cd : FileSystemHandle) : option (list WebFsTreeResult) :=
  match fuel with
  | O => None
  | S fuel' =>
      if is_none type then Some []
      else
        entries <-? enumerate cd ;;
        let filteredEntries := _filterEntry type entries in
        for_each (fun entry =>
                    if Kind_eqb (kind entry) kind_file || Z.eqb depth maxDepth then
                      Some (TreeResult entry None)
                    else
                      tre <-? _tree fuel' type maxDepth (depth + 1) entry ;;
                      Some (TreeResult entry (Some tre)))
                 filteredEntries
  end.

(** [_tree] with the ceiling and the counter as the numbers they are in
    the source, which need not be integers; [_tree] above is this function
    at integer values. *)
Fixpoint _tree_number (fuel : nat) (type : FilterType)
    (maxDepth depth : Number.number) (cd : FileSystemHandle)
    : option (list WebFsTreeResult) :=
  match fuel with
  | O => None
  | S fuel' =>
      if is_none type then Some []
      else
        entries <-? enumerate cd ;;
        let filteredEntries := _filterEntry type entries in
        for_each (fun entry =>
                    if Kind_eqb (kind entry) kind_file
                       || Number.strict_eq depth maxDepth then
                      Some (TreeResult entry None)
                    else
                      tre <-? _tree_number fuel' type maxDepth
                                (Number.add depth (Number.of_Z 1)) entry ;;
                      Some (TreeResult entry (Some tre)))
                 filteredEntries
  end.

(** [_flat]: each node's handle, then the flattening of its children when
    they are materialised. *)
Fixpoint _flat_node (t : WebFsTreeResult) : list FileSystemHandle :=
  match t with
  | TreeResult h c =>
      h :: match c with
           | Some cs => flat_map _flat_node cs
           | None => []
           end
  end.

Definition _flat (tree : list WebFsTreeResult) : list FileSystemHandle :=
  flat_map _flat_node tree.

Definition names (fuel : nat) (this : WebFsDirectoryHandle)
    (options : WebFsEntryListOptions) : option (list string) :=
  let file := default true (opt_file options) in
  let dir := default true (opt_dir options) in
  let depth := default 1%Z (opt_depth options) in
  if negb file && negb dir then Some []
  else
    tree <-? _tree fuel (toFilterType file dir) depth 1 (_handle this) ;;
    Some (map name (_flat tree)).

Definition list_ (fuel : nat) (this : WebFsDirectoryHandle)
    (options : WebFsEntryListOptions) : option (list WebFsEntry) :=
  let file := default true (opt_file options) in
  let dir := default true (opt_dir options) in
  let depth := default 1%Z (opt_depth options) in
  if negb file && negb dir then Some []
  else
    tree <-? _tree fuel (toFilterType file dir) depth 1 (_handle this) ;;
    let entries :=
      map (fun entry =>
             if Kind_eqb (kind entry) kind_file
             then option_map IsFile (WebFsFileHandle_create entry None)
             else option_map IsDirectory (WebFsDirectoryHandle_create entry None))
          (_flat tree) in
    Some (defined entries).

Definition tree (fuel : nat) (this : WebFsDirectoryHandle)
    (options : WebFsEntryListOptions) : option WebFsTreeResult :=
  let file := default true (opt_file options) in
  let dir := default true (opt_dir options) in
  let depth := default 1%Z (opt_depth options) in
  treeResult <-? _tree fuel (toFilterType file dir) depth 1 (_handle this) ;;
  Some (TreeResult (_handle this) (Some treeResult)).

(** *** The renderer *)

Fixpoint _toString (fuel : nat) (type : FilterType) (maxDepth depth : Z)
    (cd : FileSystemHandle) : option (list string) :=
  match fuel with
  | O => None
  | S fuel' =>
      if is_none type then Some [name cd +++ "/"]
      else
        entries <-? enumerate cd ;;
        let filteredEntries := _filterEntry type entries in
        let lastIndex := (Z.of_nat (List.length filteredEntries) - 1)%Z in
        pushed <-? for_each
          (fun ie : Z * FileSystemHandle =>
             let (index, entry) := ie in
             let prefix := if Z.ltb index lastIndex then "├─" else "└─" in
             if Kind_eqb (kind entry) kind_file then
               Some [prefix +++ " " +++ name entry]
             else if Z.eqb depth maxDepth then
               Some [prefix +++ " " +++ name entry +++ "/"]
             else
               innerLines <-? _toString fuel' type maxDepth (depth + 1) entry ;;
               Some (map (fun il : Z * string =>
                            let (i, line) := il in
                            let prefix :=
                              if Z.eqb index lastIndex
                              then (if Z.eqb i 0 then "└─" else "  ")
                              else (if Z.eqb i 0 then "├─" else "│ ") in
                            prefix +++ " " +++ line)
                         (Js.entries innerLines)))
          (Js.entries filteredEntries) ;;
        Some ((name cd +++ "/") :: List.concat pushed)
  end.

Definition newline : string := String (ascii_of_nat 10) EmptyString.

Definition treeString (fuel : nat) (this : WebFsDirectoryHandle)
    (options : WebFsEntryListOptions) : option string :=
  let file := default true (opt_file options) in
  let dir := default true (opt_dir options) in
  let depth := default 1%Z (opt_depth options) in
  lines <-? _toString fuel (toFilterType file dir) depth 1 (_handle this) ;;
  Some (Js.join newline lines).

(** *** Path resolution, the directory-chain walker and the operations on
    a path *)

Fixpoint walk (h : FileSystemHandle) (directoryNames : list string)
    (create : bool) : M FileSystemHandle :=
  match directoryNames with
  | [] => ret h
  | directoryName :: rest =>
      h' <- getDirectoryHandle h directoryName create ;;
      walk h' rest create
  end.

Definition _dirByPath (this : WebFsDirectoryHandle) (directoryNames : list string)
    (create : option bool) : M FileSystemHandle :=
  walk (_handle this) directoryNames (default false create).

Definition file (this : WebFsDirectoryHandle) (filePath : string)
    (options : option WebFsGetOptions) : World -> option WebFsFileHandle * World :=
  try_catch
    (let directoryNames := Js.slice1 (Js.split Path.sep (Path.resolve filePath)) in
     let (fileName, directoryNames) := Js.pop directoryNames in
     if Js.strict_eq fileName "" then ret None
     else
       dirHandle <- _dirByPath this directoryNames (create_of options) ;;
       fileHandle <- getFileHandle dirHandle (Js.to_string fileName)
                       (default false (create_of options)) ;;
       ret (WebFsFileHandle_create fileHandle (mode_of options)))
    None.

Definition dir (this : WebFsDirectoryHandle) (dirPath : string)
    (options : option WebFsGetOptions) : World -> option WebFsDirectoryHandle * World :=
  try_catch
    (let directoryNames := Js.slice1 (Js.split Path.sep (Path.resolve dirPath)) in
     if Nat.eqb (List.length directoryNames) 1
        && Js.strict_eq (nth_error directoryNames 0) ""
     then ret None
     else
       dirHandle <- _dirByPath this directoryNames (create_of options) ;;
       ret (WebFsDirectoryHandle_create dirHandle (mode_of options)))
    None.

Definition createFile (this : WebFsDirectoryHandle) (filePath : string)
    (options : option PermissionMode) : World -> option WebFsFileHandle * World :=
  file this filePath (Some (mkGetOptions (Some true) options)).

Definition createDir (this : WebFsDirectoryHandle) (dirPath : string)
    (options : option PermissionMode) : World -> option WebFsDirectoryHandle * World :=
  dir this dirPath (Some (mkGetOptions (Some true) options)).

Definition remove (this : WebFsDirectoryHandle) (entryPath : string)
    : World -> bool * World :=
  try_catch
    (let entryNames := Js.slice1 (Js.split Path.sep (Path.resolve entryPath)) in
     let (lastEntryName, entryNames) := Js.pop entryNames in
     if Js.strict_eq lastEntryName "" then ret false
     else
       dirHandle <- _dirByPath this entryNames None ;;
       _ <- removeEntry dirHandle entryPath true ;;
       ret true)
    false.

End DirectoryHandle.

(* ================================================================== *)
(** ** A model of the pattern matcher                                   *)
(* ================================================================== *)

Module Micromatch.

(** Modelled from the spec: the pattern matcher of section 6 is the
    external library micromatch. This is its behaviour on the fragment the
    examples below use: literal characters, [?] and [*] inside one segment,
    [**] as a whole segment (any number of directory levels, none
    included), and a leading [!] that negates the pattern. A segment that
    starts with a dot is matched only by a pattern segment that starts with
    a dot. Brackets, braces and parentheses are outside the fragment. *)
Fixpoint segment (p : string) : string -> bool :=
  match p with
  | EmptyString => fun s => String.eqb s ""
  | String c p' =>
      if Ascii.eqb c "*"%char then
        fix star (s : string) : bool :=
          segment p' s
          || match s with
             | String _ s' => star s'
             | EmptyString => false
             end
      else if Ascii.eqb c "?"%char then
        fun s => match s with
                 | String _ s' => segment p' s'
                 | EmptyString => false
                 end
      else
        fun s => match s with
                 | String c' s' => Ascii.eqb c c' && segment p' s'
                 | EmptyString => false
                 end
  end.

Definition dotted (s : string) : bool :=
  match s with
  | String c _ => Ascii.eqb c "."%char
  | EmptyString => false
  end.

Definition segment_ok (p s : string) : bool :=
  (negb (dotted s) || dotted p) && segment p s.

Fixpoint segments (ps : list string) : list string -> bool :=
  match ps with
  | [] => fun ss => match ss with [] => true | _ :: _ => false end
  | p :: ps' =>
      if String.eqb p "**" then
        fix star (ss : list string) : bool :=
          segments ps' ss
          || match ss with
             | s :: ss' => negb (dotted s) && star ss'
             | [] => false
             end
      else
        fun ss => match ss with
                  | s :: ss' => segment_ok p s && segments ps' ss'
                  | [] => false
                  end
  end.

(** [micromatch.isMatch(candidate, pattern)]. *)
Fixpoint isMatch_from (pattern : string) (candidate : string) : bool :=
  match pattern with
  | String c p' =>
      if Ascii.eqb c "!"%char then negb (isMatch_from p' candidate)
      else segments (Js.split "/"%char pattern) (Js.split "/"%char candidate)
  | EmptyString => false
  end.

Definition isMatch (candidate pattern : string) : bool :=
  isMatch_from pattern candidate.

End Micromatch.

(* ================================================================== *)
(** ** Concrete directory trees used by the examples                    *)
(* ================================================================== *)

Module Fixtures.

(** [root/{a.txt, sub/{b.txt}}], in host enumeration order. *)
Definition two_level : Entry :=
  Directory "root" [File "a.txt"; Directory "sub" [File "b.txt"]].

(** A tree with [src/a.ts], [src/lib/b.ts], [src/c.md] and [a.ts]. *)
Definition sources : Entry :=
  Directory "root"
    [Directory "src" [File "a.ts"; Directory "lib" [File "b.ts"]; File "c.md"];
     File "a.ts"].

(** [root/{b.ts, src/{a.ts}}]. *)
Definition small : Entry :=
  Directory "root" [File "b.ts"; Directory "src" [File "a.ts"]].

(** The handle of the directory the library was handed. *)
Definition root_of (e : Entry) : WebFsDirectoryHandle :=
  mkWebFsDirectoryHandle (mkHandle [] e).

(** A permission broker that gives the same answer to every question. *)
Definition always (s : PermissionState) (h : FileSystemHandle)
    (m : PermissionMode) : PermissionState := s.

End Fixtures.

(* ================================================================== *)
(** ** [WebFsFileHandleList]                                            *)
(* ================================================================== *)

Module FileHandleList.

Record WebFsFileHandleList : Type := mkWebFsFileHandleList {
  _handles : list WebFsFileHandle
}.

(** [xs.includes(undefined)]. *)
Definition includes_undefined (A : Type) (xs : list (option A)) : bool :=
  existsb (fun x => match x with None => true | Some _ => false end) xs.

Section Create.

Variable queryPermission : FileSystemHandle -> PermissionMode -> PermissionState.
Variable requestPermission : FileSystemHandle -> PermissionMode -> PermissionState.

(** [WebFsFileHandleList.create]: [validHandles as WebFsFileHandle[]] keeps
    the handles, none of which is [undefined] on that branch. *)
Definition create (handles : list FileSystemHandle) (mode : option PermissionMode)
    : option WebFsFileHandleList :=
  let validHandles :=
    map (fun h => WebFsFileHandle_create queryPermission requestPermission h mode)
        handles in
  if includes_undefined validHandles then None
  else
    let instance := mkWebFsFileHandleList (defined validHandles) in
    Some instance.

End Create.

(** The [name] getter of [WebFsHandle]. *)
Definition handle_name (h : WebFsFileHandle) : string := name (fh_handle h).

(** [file(fileName)]: [this._handles.find(...)]. *)
Definition file (this : WebFsFileHandleList) (fileName : string)
    : option WebFsFileHandle :=
  find (fun h => String.eqb (handle_name h) fileName) (_handles this).

Definition names (this : WebFsFileHandleList) : list string :=
  map handle_name (_handles this).

Definition list (this : WebFsFileHandleList) : list WebFsFileHandle :=
  _handles this.

Definition length (this : WebFsFileHandleList) : nat :=
  List.length (_handles this).

End FileHandleList.

(* ================================================================== *)
(** ** The hexadecimal rendering of a digest ([WebFsFileHandle.hash])   *)
(* ================================================================== *)

Module Hex.

(** The digit of [Number.prototype.toString(16)] for a value below 16. *)
Definition hex_digit (d : N) : ascii :=
  match d with
  | 0%N => "0" | 1%N => "1" | 2%N => "2" | 3%N => "3"
  | 4%N => "4" | 5%N => "5" | 6%N => "6" | 7%N => "7"
  | 8%N => "8" | 9%N => "9" | 10%N => "a" | 11%N => "b"
  | 12%N => "c" | 13%N => "d" | 14%N => "e" | _ => "f"
  end%char.

Fixpoint digits16 (fuel : nat) (n : N) (acc : string) : string :=
  match fuel with
  | O => acc
  | S fuel' =>
      let acc' := String (hex_digit (n mod 16)) acc in
      if N.eqb (n / 16) 0 then acc' else digits16 fuel' (n / 16) acc'
  end.

(** [n.toString(16)] for a non-negative integer: no leading zero, ["0"]
    for zero. *)
Definition toString16 (n : N) : string :=
  digits16 (S (N.to_nat (N.log2 n))) n "".

Fixpoint repeat_char (k : nat) (c : ascii) : string :=
  match k with
  | O => ""
  | S k' => String c (repeat_char k' c)
  end.

(** [s.padStart(target, c)] for a one-character pad string. *)
Definition padStart (target : nat) (c : ascii) (s : string) : string :=
  repeat_char (target - String.length s) c +++ s.

(** [hashArray.map((b) => b.toString(16).padStart(2, '0')).join('')], the
    bytes being those of the [Uint8Array] over the digest. *)
Definition hash_hex (hashArray : Datatypes.list Byte.byte) : string :=
  Js.join "" (map (fun b => padStart 2 "0"%char (toString16 (Byte.to_N b))) hashArray).

End Hex.

(* ================================================================== *)
(** ** Vocabulary of the properties                                     *)
(* ================================================================== *)

Unset Implicit Arguments.

(** The terminal segment [pop] leaves after resolution. *)
Definition terminal_segment (p : string) : option string :=
  fst (Js.pop (Js.slice1 (Js.split Path.sep (Path.resolve p)))).

(** No usable node for a path: whatever the options, the permission
    broker, the wrapped directory and the host tree, the getters return
    [undefined], removal returns [false], and the host tree is untouched. *)
Definition no_usable_node (p : string) : Prop :=
  terminal_segment p = Some "" /\
  forall (q r : FileSystemHandle -> PermissionMode -> PermissionState)
         (this : WebFsDirectoryHandle) (options : option WebFsGetOptions)
         (mode : option PermissionMode) (w : World),
    file q r this p options w = (None, w) /\
    dir q r this p options w = (None, w) /\
    createFile q r this p mode w = (None, w) /\
    createDir q r this p mode w = (None, w) /\
    remove this p w = (false, w).

(** The recursion of a traversal started at [cd] is at most this deep. *)
Definition enough (cd : FileSystemHandle) : nat := height (h_ent cd) + 2.

Definition file_handle_at (loc : list string) : WebFsFileHandle :=
  mkWebFsFileHandle (mkHandle loc (File (last loc ""))).

(** Does an entry pass the filter? *)
Definition passes (type : FilterType) (h : FileSystemHandle) : bool :=
  match type with
  | f_none => false
  | f_all => true
  | f_file => Kind_eqb (kind h) kind_file
  | f_dir => Kind_eqb (kind h) kind_directory
  end.

(** The nodes of a built tree at a given distance from the root: the
    siblings the builder returns are at distance 1. *)
Fixpoint nodes_at (n : nat) (l : list WebFsTreeResult) : list WebFsTreeResult :=
  match n with
  | O => []
  | S m =>
      match m with
      | O => l
      | S _ =>
          flat_map (fun t => match children t with
                             | Some cs => nodes_at m cs
                             | None => []
                             end) l
      end
  end.

(** [descends cd segs h]: the entry [h] is reached from the directory [cd]
    by enumerating children, and [segs] are the names met on the way, the
    name of [h] last. *)
Inductive descends : FileSystemHandle -> list string -> FileSystemHandle -> Prop :=
| descends_child (cd h : FileSystemHandle) :
    In h (values cd) -> descends cd [name h] h
| descends_step (cd d : FileSystemHandle) (segs : list string) (h : FileSystemHandle) :
    In d (values cd) -> descends d segs h -> descends cd (name d :: segs) h.

(** [kept type cd h]: [h] is reached from [cd] through entries that all
    pass the filter, [h] included. *)
Inductive kept (type : FilterType) : FileSystemHandle -> FileSystemHandle -> Prop :=
| kept_child (cd h : FileSystemHandle) :
    In h (values cd) -> passes type h = true -> kept type cd h
| kept_below (cd d h : FileSystemHandle) :
    In d (values cd) -> passes type d = true -> kept type d h -> kept type cd h.

(** The direct file children of a directory. *)
Definition direct_files (cd : FileSystemHandle) : list FileSystemHandle :=
  filter (fun h => Kind_eqb (kind h) kind_file) (values cd).

Definition leaf (h : FileSystemHandle) : WebFsTreeResult := TreeResult h None.

(** A file reached by directory descent from [cd] whose accumulated
    relative path matches the unsplit pattern. *)
Definition matching_file (isMatch : string -> string -> bool)
    (cd : FileSystemHandle) (P : string) (h : FileSystemHandle) : Prop :=
  kind h = kind_file /\
  exists segs, descends cd segs h /\ isMatch (Js.join "/" segs) P = true.

(** The engine, and the operation built on it, return exactly the matching
    files. *)
Definition engine_exact (isMatch : string -> string -> bool)
    (cd : FileSystemHandle) (P : string) : Prop :=
  exists entries,
    (exists fuel, _glob isMatch enumerate_tree fuel (Js.split "/"%char P) 0 cd "" = Some entries) /\
    forall h, In h entries <-> matching_file isMatch cd P h.



(** The descent that a pattern without recursive marker prescribes for a
    path: as many segments as the pattern has from [idx] on, and every
    directory name matched by its own segment. *)
Fixpoint dirs_match (isMatch : string -> string -> bool) (patterns : list string)
    (idx : nat) (segs : list string) : bool :=
  match segs with
  | [] => false
  | d :: rest =>
      match rest with
      | [] => Nat.eqb (S idx) (List.length patterns)
      | _ :: _ =>
          match nth_error patterns idx with
          | Some p => isMatch d p && dirs_match isMatch patterns (S idx) rest
          | None => false
          end
      end
  end.

(** Everything below an entry, with the names on the way. *)
Fixpoint descendants_of (loc : list string) (e : Entry)
    : list (list string * FileSystemHandle) :=
  match e with
  | File _ => []
  | Directory _ cs =>
      flat_map (fun c =>
                  ([entry_name c], child_handle loc c)
                  :: map (fun sh => (entry_name c :: fst sh, snd sh))
                         (descendants_of (loc ++ [entry_name c]) c))
               cs
  end.

Definition descendants (cd : FileSystemHandle) : list (list string * FileSystemHandle) :=
  descendants_of (h_loc cd) (h_ent cd).

(** The matcher accepts the files of the tree segment by segment: a file
    whose path matches the whole pattern is on the descent the pattern
    prescribes. *)
Definition segmentwise (isMatch : string -> string -> bool) (P : string)
    (cd : FileSystemHandle) : bool :=
  forallb (fun sh : list string * FileSystemHandle =>
             implb (Kind_eqb (kind (snd sh)) kind_file
                    && isMatch (Js.join "/" (fst sh)) P)
                   (dirs_match isMatch (Js.split "/"%char P) 0 (fst sh)))
          (descendants cd).

(** The depth bound for a ceiling that is any number: the builder
    returns, and no node of the tree it returns lies further from the root
    than the ceiling. *)
Definition within_ceiling (type : FilterType) (d : Number.number)
    (cd : FileSystemHandle) : Prop :=
  exists out,
    (exists fuel,
        _tree_number enumerate_tree fuel type d (Number.of_Z 1) cd = Some out)
    /\ forall n t, In t (nodes_at n out) -> Number.le (Number.of_Z (Z.of_nat n)) d.

(** *** Vocabulary of the further properties *)

(** The value of a lowercase hexadecimal digit. *)
Definition hex_value (c : ascii) : option N :=
  match N_of_ascii c with
  | 48%N => Some 0%N | 49%N => Some 1%N | 50%N => Some 2%N | 51%N => Some 3%N
  | 52%N => Some 4%N | 53%N => Some 5%N | 54%N => Some 6%N | 55%N => Some 7%N
  | 56%N => Some 8%N | 57%N => Some 9%N | 97%N => Some 10%N | 98%N => Some 11%N
  | 99%N => Some 12%N | 100%N => Some 13%N | 101%N => Some 14%N | 102%N => Some 15%N
  | _ => None
  end.

Definition is_hex_digit (c : ascii) : bool :=
  match hex_value c with
  | Some _ => true
  | None => false
  end.

(** Reading a hexadecimal string back, two digits a byte. *)
Fixpoint from_hex (s : string) : option (Datatypes.list Byte.byte) :=
  match s with
  | EmptyString => Some []
  | String hi (String lo rest) =>
      match hex_value hi, hex_value lo, from_hex rest with
      | Some h, Some l, Some bs =>
          match Byte.of_N (16 * h + l) with
          | Some b => Some (b :: bs)
          | None => None
          end
      | _, _, _ => None
      end
  | String _ EmptyString => None
  end.

Fixpoint all_chars (p : ascii -> bool) (s : string) : bool :=
  match s with
  | EmptyString => true
  | String c rest => p c && all_chars p rest
  end.

(** The two digits of one byte. *)
Definition byte_hex (b : Byte.byte) : string :=
  Hex.padStart 2 "0"%char (Hex.toString16 (Byte.to_N b)).

(** How the renderer shows an entry: a directory with a trailing slash. *)
Definition label (h : FileSystemHandle) : string :=
  if Kind_eqb (kind h) kind_file then name h else name h +++ "/".

(** The wrapper [list] builds for a handle, and the [name] getter of the
    wrappers. *)
Definition wrapper (h : FileSystemHandle) : WebFsEntry :=
  if Kind_eqb (kind h) kind_file
  then IsFile (mkWebFsFileHandle h)
  else IsDirectory (mkWebFsDirectoryHandle h).

Definition webfs_name (e : WebFsEntry) : string :=
  match e with
  | IsFile f => name (fh_handle f)
  | IsDirectory d => name (_handle d)
  end.

(** The materialised children of a node, none for a leaf. *)
Definition children_of (t : WebFsTreeResult) : Datatypes.list WebFsTreeResult :=
  default [] (children t).

(** A rendered line shows an entry: it ends with the label of the entry. *)
Definition shows (line : string) (h : FileSystemHandle) : Prop :=
  exists pre, line = pre +++ label h.

(** The chain of directories [names] exists in the host tree below the
    position [loc], every name being a valid single segment. *)
Fixpoint reaches (w : World) (loc names : Datatypes.list string) : bool :=
  match names with
  | [] => true
  | n :: rest =>
      valid_name n
      && match lookup (loc ++ [n]) w with
         | Some (Directory _ _) => reaches w (loc ++ [n]) rest
         | _ => false
         end
  end.


(** A tree shows what the host answered: at every node whose children
    are materialised, the children are the filtered answer of the host
    for that node, in the host's order. *)
Fixpoint reflects (enumerate : FileSystemHandle -> option (Datatypes.list FileSystemHandle))
    (type : FilterType) (t : WebFsTreeResult) {struct t} : Prop :=
  match t with
  | TreeResult h None => True
  | TreeResult h (Some cs) =>
      (exists es, enumerate h = Some es /\ map handle cs = _filterEntry type es)
      /\ (fix all (l : Datatypes.list WebFsTreeResult) : Prop :=
            match l with
            | [] => True
            | x :: r => reflects enumerate type x /\ all r
            end) cs
  end.

(* ================================================================== *)
(** ** Properties                                                       *)
(* ================================================================== *)


(** *** The modelled libraries on examples *)

Example resolve_relative : Path.resolve "sub/b.txt" = "/sub/b.txt".
Proof. reflexivity. Qed.

Example resolve_normalises : Path.resolve "a/../b//c/./d.txt" = "/b/c/d.txt".
Proof. reflexivity. Qed.

Example resolve_stops_at_root : Path.resolve "../../x" = "/x".
Proof. reflexivity. Qed.

Example resolved_segments :
  Js.slice1 (Js.split Path.sep (Path.resolve "sub/b.txt")) = ["sub"; "b.txt"].
Proof. reflexivity. Qed.

Example star_stays_in_its_segment :
  Micromatch.isMatch "src/a.ts" "*.ts" = false
  /\ Micromatch.isMatch "src/a.ts" "src/*.ts" = true
  /\ Micromatch.isMatch "src/.a.ts" "src/*.ts" = false.
Proof. repeat split. Qed.

Example marker_spans_levels :
  Micromatch.isMatch "a.ts" "**/*.ts" = true
  /\ Micromatch.isMatch "src/lib/b.ts" "**/*.ts" = true
  /\ Micromatch.isMatch "src/c.md" "**/*.ts" = false
  /\ Micromatch.isMatch "src/a.ts" "**" = true.
Proof. repeat split. Qed.

Example bang_negates :
  Micromatch.isMatch "b.ts" "!src/a.ts" = true
  /\ Micromatch.isMatch "src/a.ts" "!src/a.ts" = false
  /\ Micromatch.isMatch "src" "!src" = false.
Proof. repeat split. Qed.

(** *** Splitting and joining *)

Lemma split_not_nil (c : ascii) (s : string) : Js.split c s <> [].
Proof.
  destruct s as [|a s]; simpl; [discriminate|].
  destruct (Ascii.eqb a c); [discriminate|].
  destruct (Js.split c s); discriminate.
Qed.

Lemma join_cons2 (sep x y : string) (rest : list string) :
  Js.join sep (x :: y :: rest) = x +++ sep +++ Js.join sep (y :: rest).
Proof. reflexivity. Qed.

(** [s.split('/').join('/')] is [s]. *)
Lemma join_split (s : string) : Js.join "/" (Js.split "/"%char s) = s.
Proof.
  induction s as [|a s IH]; [reflexivity|].
  cbn [Js.split].
  destruct (Ascii.eqb_spec a "/"%char) as [->|Hne].
  - pose proof (split_not_nil "/"%char s) as Hnil.
    destruct (Js.split "/"%char s) as [|y rest]; [contradiction|].
    rewrite join_cons2, IH. reflexivity.
  - pose proof (split_not_nil "/"%char s) as Hnil.
    destruct (Js.split "/"%char s) as [|y rest]; [contradiction|].
    destruct rest as [|z rest'].
    + simpl in IH. simpl. now rewrite IH.
    + rewrite join_cons2 in *. rewrite <- IH. reflexivity.
Qed.

Lemma append_assoc3 (a b c : string) : (a +++ b) +++ c = a +++ b +++ c.
Proof. induction a as [|x a IH]; simpl; [reflexivity | now rewrite IH]. Qed.

(** The prefix accumulated by the descent, followed by the rest of the
    path. *)
Lemma join_cons_nonempty (x : string) (segs : list string) :
  segs <> [] -> Js.join "/" (x :: segs) = x +++ "/" +++ Js.join "/" segs.
Proof. destruct segs; [contradiction | reflexivity]. Qed.

(** *** Paths that resolve to the root *)

(** C7: for the inputs ".", "/" and "" the file getter and the directory
    getter return undefined for any create flag, and remove returns false,
    because resolution yields an empty terminal segment. *)
Theorem root_paths_have_no_usable_node :
  no_usable_node "." /\ no_usable_node "/" /\ no_usable_node "".
Proof.
  repeat split; reflexivity.
Qed.

(** *** The empty pattern *)

(** C9: for the empty pattern string glob returns an empty result at once,
    without enumerating a directory: the result is the same for every
    matcher, permission broker and directory, whatever the host answers to
    an enumeration, on a host whose every enumeration fails, and with no
    fuel at all; the traversal itself, once entered on such a host, has no
    result. *)
Theorem glob_empty_pattern :
  forall (isMatch : string -> string -> bool)
         (q r : FileSystemHandle -> PermissionMode -> PermissionState)
         (enumerate : FileSystemHandle -> option (list FileSystemHandle))
         (fuel : nat) (this : WebFsDirectoryHandle),
    glob isMatch q r enumerate fuel this "" = Some [] /\
    glob isMatch q r enumerate_failing fuel this "" = Some [] /\
    glob isMatch q r enumerate 0 this "" = Some [] /\
    (forall n, _glob isMatch enumerate_failing n (Js.split "/"%char "") 0
                 (_handle this) "" = None).
Proof.
  intros. repeat split. intros [|n]; reflexivity.
Qed.

(** *** Rendering *)

(** C8: rendering [root/{a.txt, sub/{b.txt}}] with the all filter and
    maxDepth 2 gives exactly the four lines [root/], [├─ a.txt], [└─ sub/]
    and [   └─ b.txt], in that order. *)
Theorem render_two_level :
  forall k : nat,
    _toString enumerate_tree (2 + k) f_all 2 1 (_handle (Fixtures.root_of Fixtures.two_level))
    = Some ["root/"; "├─ a.txt"; "└─ sub/"; "   └─ b.txt"]
    /\ treeString enumerate_tree (2 + k) (Fixtures.root_of Fixtures.two_level)
         (mkListOptions (Some true) (Some true) (Some 2%Z))
       = Some ("root/" +++ newline +++ "├─ a.txt" +++ newline +++
               "└─ sub/" +++ newline +++ "   └─ b.txt").
Proof.
  intros k. split; reflexivity.
Qed.

(** *** Enough fuel *)

(** *** The recursive marker, on an example *)

(** C4: for the pattern "**/*.ts" over a tree that contains src/a.ts,
    src/lib/b.ts, a.ts at the root and src/c.md, glob returns exactly a.ts,
    src/a.ts and src/lib/b.ts, for every matcher that accepts the three
    .ts paths and rejects src/c.md, once read permission is granted. *)
Theorem glob_recursive_marker_example :
  forall (isMatch : string -> string -> bool)
         (q r : FileSystemHandle -> PermissionMode -> PermissionState) (k : nat),
    isMatch "a.ts" "**/*.ts" = true ->
    isMatch "src/a.ts" "**/*.ts" = true ->
    isMatch "src/lib/b.ts" "**/*.ts" = true ->
    isMatch "src/c.md" "**/*.ts" = false ->
    (forall h, _verifyPermission q r h read = true) ->
    glob isMatch q r enumerate_tree (enough (_handle (Fixtures.root_of Fixtures.sources)) + k)
         (Fixtures.root_of Fixtures.sources) "**/*.ts"
    = Some [file_handle_at ["a.ts"]; file_handle_at ["src"; "a.ts"];
            file_handle_at ["src"; "lib"; "b.ts"]].
Proof.
  intros isMatch q r k Ha Hsa Hb Hc Hgrant.
  unfold glob, WebFsFileHandle_create. cbn.
  rewrite Ha, Hsa, Hb, Hc. cbn.
  rewrite !Hgrant. reflexivity.
Qed.

Lemma glob_recursive_marker_example_witness :
  glob Micromatch.isMatch (Fixtures.always granted) (Fixtures.always denied) enumerate_tree 5
       (Fixtures.root_of Fixtures.sources) "**/*.ts"
  = Some [file_handle_at ["a.ts"]; file_handle_at ["src"; "a.ts"];
          file_handle_at ["src"; "lib"; "b.ts"]].
Proof.
  apply (glob_recursive_marker_example Micromatch.isMatch
           (Fixtures.always granted) (Fixtures.always denied) 0);
    reflexivity.
Defined.

(** *** Removal *)

Lemma get_child_keeps_world (want : Kind) (cd : FileSystemHandle) (n : string)
    (w : World) :
  snd (get_child want cd n false w) = w.
Proof.
  unfold get_child.
  destruct (negb (valid_name n)); [reflexivity|].
  destruct (lookup (h_loc cd) w) as [[?|? cs]|]; try reflexivity.
  destruct (find_child n cs) as [c|]; [|reflexivity].
  destruct (Kind_eqb (entry_kind c) want); reflexivity.
Qed.

(** Without [create] the walker only reads the host tree. *)
Lemma walk_keeps_world (directoryNames : list string) :
  forall (h : FileSystemHandle) (w : World),
    snd (walk h directoryNames false w) = w.
Proof.
  induction directoryNames as [|n rest IH]; intros h w; [reflexivity|].
  cbn [walk]. unfold bind, getDirectoryHandle.
  pose proof (get_child_keeps_world kind_directory h n w) as Hw.
  destruct (get_child kind_directory h n false w) as [[h'|e] w']; simpl in Hw; subst w'.
  - apply IH.
  - reflexivity.
Qed.

(** Whenever the path given to [remove] has a separator in it, the host is
    asked to remove an entry called by the whole path, refuses, and
    [remove] returns [false] without changing anything. *)
Lemma remove_with_separator_fails (this : WebFsDirectoryHandle) (p : string)
    (w : World) :
  Js.contains "/"%char p = true -> remove this p w = (false, w).
Proof.
  intros Hsep. unfold remove, try_catch.
  destruct (Js.pop _) as [lastEntryName entryNames].
  destruct (Js.strict_eq lastEntryName ""); [reflexivity|].
  unfold bind, _dirByPath. cbn [default].
  pose proof (walk_keeps_world entryNames (_handle this) w) as Hw.
  destruct (walk (_handle this) entryNames false w) as [[h|e] w']; simpl in Hw; subst w'.
  - unfold removeEntry, valid_name. rewrite Hsep.
    rewrite !andb_false_r. reflexivity.
  - reflexivity.
Qed.

(** C1: the parent chain [sub] exists under the root and the terminal
    entry [b.txt] exists in it, and yet [remove "sub/b.txt"] returns false
    and leaves the entry in place: the walker finds the parent, but the
    host is then asked to remove "sub/b.txt", not "b.txt". *)
Theorem remove_nested_entry_fails :
  let w := Fixtures.two_level in
  let this := Fixtures.root_of w in
  _dirByPath this ["sub"] None w
    = (Returned (mkHandle ["sub"] (Directory "sub" [File "b.txt"])), w)
  /\ lookup ["sub"; "b.txt"] w = Some (File "b.txt")
  /\ removeEntry (mkHandle ["sub"] (Directory "sub" [File "b.txt"])) "b.txt" true w
     = (Returned tt, Directory "root" [File "a.txt"; Directory "sub" []])
  /\ remove this "sub/b.txt" w = (false, w).
Proof.
  repeat split.
Qed.

Lemma split_without_separator (c : ascii) (s : string) :
  Js.contains c s = false -> Js.split c s = [s].
Proof.
  induction s as [|a s IH]; intros H; [reflexivity|].
  cbn in H. apply orb_false_iff in H as [Ha Hs].
  cbn [Js.split]. rewrite Ha, (IH Hs). reflexivity.
Qed.

Lemma split_up_to_separator (c : ascii) (a rest : string) :
  Js.contains c a = false ->
  Js.split c (a +++ String c rest) = a :: Js.split c rest.
Proof.
  induction a as [|x a IH]; intros H.
  - cbn. now rewrite Ascii.eqb_refl.
  - cbn in H. apply orb_false_iff in H as [Hx Ha].
    cbn [String.append Js.split]. rewrite Hx, (IH Ha). reflexivity.
Qed.

Lemma valid_name_inv (n : string) :
  valid_name n = true ->
  String.eqb n "" = false /\ String.eqb n "." = false /\
  String.eqb n ".." = false /\ Js.contains "/"%char n = false.
Proof.
  unfold valid_name. rewrite !andb_true_iff, !negb_true_iff. tauto.
Qed.

(** A single valid name resolves to itself under the synthetic root. *)
Lemma resolve_single_segment (n : string) :
  valid_name n = true ->
  Js.slice1 (Js.split Path.sep (Path.resolve n)) = [n].
Proof.
  intros Hv. destruct (valid_name_inv _ Hv) as (He & Hd & Hdd & Hs).
  unfold Path.resolve. rewrite He.
  assert (Path.is_absolute n = false) as ->.
  { destruct n as [|c n]; [reflexivity|]. cbn in Hs.
    apply orb_false_iff in Hs as [Hc _]. exact Hc. }
  unfold Path.normalize, Path.cwd, Path.sep.
  change ("/" +++ "/" +++ n +++ "/") with (String "/" (String "/" (n +++ "/"))).
  cbn [Js.split]. rewrite Ascii.eqb_refl.
  rewrite (split_up_to_separator "/"%char n "" Hs).
  cbn [Js.split fold_left Path.normalize_step String.eqb].
  unfold Path.normalize_step at 1. rewrite He, Hd, Hdd.
  cbn [app fold_left Path.normalize_step String.eqb Js.join].
  change ("/" +++ n) with (String "/" n).
  cbn [Js.split]. rewrite Ascii.eqb_refl.
  rewrite (split_without_separator "/"%char n Hs). reflexivity.
Qed.

(** With a single valid name, which needs no walk, [remove] does what its
    documentation says. *)
Lemma remove_single_segment (rn n : string) (cs : list Entry) (c : Entry) :
  valid_name n = true ->
  find_child n cs = Some c ->
  remove (Fixtures.root_of (Directory rn cs)) n (Directory rn cs)
  = (true, Directory rn (remove_child n cs)).
Proof.
  intros Hv Hc. unfold remove, try_catch.
  rewrite (resolve_single_segment n Hv).
  cbn [Js.pop last removelast Js.strict_eq].
  destruct (valid_name_inv _ Hv) as (He & _). rewrite He.
  unfold bind, _dirByPath, removeEntry.
  cbn [default walk ret Fixtures.root_of _handle h_loc lookup].
  rewrite Hv, Hc. cbn [negb update].
  destruct (entry_children c); reflexivity.
Qed.

(** *** Loops, filters and the height of the host tree *)

Lemma for_each_In (A B : Type) (f : A -> option B) (xs : list A) :
  forall ys y, for_each f xs = Some ys -> In y ys ->
    exists x, In x xs /\ f x = Some y.
Proof.
  induction xs as [|x xs IH]; intros ys y H Hy; cbn in H.
  - injection H as <-. contradiction.
  - destruct (f x) as [b|] eqn:Hfx; [|discriminate].
    destruct (for_each f xs) as [bs|] eqn:Hrest; [|discriminate].
    cbn in H. injection H as <-.
    destruct Hy as [<-|Hy].
    + exists x. split; [now left | exact Hfx].
    + destruct (IH bs y eq_refl Hy) as (x' & Hin & Hx').
      exists x'. split; [now right | exact Hx'].
Qed.

Lemma for_each_covers (A B : Type) (f : A -> option B) (xs : list A) :
  forall ys x, for_each f xs = Some ys -> In x xs ->
    exists y, In y ys /\ f x = Some y.
Proof.
  induction xs as [|x0 xs IH]; intros ys x H Hx; cbn in H; [contradiction|].
  destruct (f x0) as [b|] eqn:Hfx; [|discriminate].
  destruct (for_each f xs) as [bs|] eqn:Hrest; [|discriminate].
  cbn in H. injection H as <-.
  destruct Hx as [<-|Hx].
  - exists b. split; [now left | exact Hfx].
  - destruct (IH bs x eq_refl Hx) as (y & Hin & Hy).
    exists y. split; [now right | exact Hy].
Qed.

Lemma for_each_returns (A B : Type) (f : A -> option B) (xs : list A) :
  (forall x, In x xs -> exists y, f x = Some y) ->
  exists ys, for_each f xs = Some ys.
Proof.
  induction xs as [|x xs IH]; intros H; cbn.
  - now exists [].
  - destruct (H x (or_introl eq_refl)) as (y & ->).
    destruct IH as (ys & ->); [intros x' Hx'; apply H; now right|].
    now exists (y :: ys).
Qed.

Lemma for_each_pure (A B : Type) (g : A -> B) (xs : list A) :
  for_each (fun x => Some (g x)) xs = Some (map g xs).
Proof.
  induction xs as [|x xs IH]; cbn; [reflexivity | now rewrite IH].
Qed.

Lemma _filterEntry_spec (type : FilterType) (entries : list FileSystemHandle) :
  _filterEntry type entries = filter (passes type) entries.
Proof.
  destruct type; cbn; try reflexivity.
  induction entries; cbn; congruence.
Qed.

Lemma in_filterEntry (type : FilterType) (entries : list FileSystemHandle)
    (h : FileSystemHandle) :
  In h (_filterEntry type entries) <-> In h entries /\ passes type h = true.
Proof. rewrite _filterEntry_spec. apply filter_In. Qed.

Lemma Kind_eqb_eq (a b : Kind) : Kind_eqb a b = true <-> a = b.
Proof. destruct a, b; cbn; split; congruence. Qed.

Lemma height_of_child (n : string) (cs : list Entry) (c : Entry) :
  In c cs -> height c < height (Directory n cs).
Proof.
  intros Hin. cbn [height]. apply Nat.lt_succ_r.
  induction cs as [|c0 cs IH]; [contradiction|].
  cbn [map list_max fold_right]. destruct Hin as [->|Hin].
  - apply Nat.le_max_l.
  - etransitivity; [apply IH, Hin | apply Nat.le_max_r].
Qed.

Lemma height_of_value (cd h : FileSystemHandle) :
  In h (values cd) -> height (h_ent h) < height (h_ent cd).
Proof.
  unfold values. intros Hin. apply in_map_iff in Hin as (c & <- & Hc).
  destruct (h_ent cd) as [|n cs]; [contradiction|].
  cbn [child_handle h_ent]. now apply height_of_child.
Qed.

Lemma value_loc (cd h : FileSystemHandle) :
  In h (values cd) -> h_loc h = h_loc cd ++ [name h].
Proof.
  unfold values. intros Hin. apply in_map_iff in Hin as (c & <- & _).
  reflexivity.
Qed.

(** *** The tree builder returns *)

Lemma _tree_returns (fuel : nat) :
  forall (type : FilterType) (maxDepth depth : Z) (cd : FileSystemHandle),
    height (h_ent cd) < fuel ->
    exists out, _tree enumerate_tree fuel type maxDepth depth cd = Some out.
Proof.
  induction fuel as [|fuel IH]; intros type maxDepth depth cd Hfuel; [lia|].
  cbn [_tree enumerate_tree obind]. destruct (is_none type); [now exists []|].
  apply for_each_returns. intros entry Hentry.
  apply in_filterEntry in Hentry as [Hentry _].
  destruct (Kind_eqb (kind entry) kind_file || Z.eqb depth maxDepth);
    [eauto|].
  pose proof (height_of_value cd entry Hentry) as Hlt.
  destruct (IH type maxDepth (depth + 1)%Z entry) as (tre & ->); [lia|].
  cbn. eauto.
Qed.

(** *** The depth ceiling *)

Lemma _tree_levels (fuel : nat) :
  forall (type : FilterType) (maxDepth depth : Z) (cd : FileSystemHandle)
         (out : list WebFsTreeResult),
    _tree enumerate_tree fuel type maxDepth depth cd = Some out ->
    (depth <= maxDepth)%Z ->
    forall (n : nat) (t : WebFsTreeResult),
      In t (nodes_at (S n) out) ->
      (depth + Z.of_nat n <= maxDepth)%Z /\
      ((depth + Z.of_nat n = maxDepth)%Z -> children t = None).
Proof.
  induction fuel as [|fuel IH]; intros type maxDepth depth cd out Hrun Hle n t Ht;
    [discriminate|].
  cbn [_tree enumerate_tree obind] in Hrun.
  destruct (is_none type).
  { injection Hrun as <-. destruct n; cbn in Ht; contradiction. }
  destruct n as [|n].
  - cbn [nodes_at] in Ht.
    destruct (for_each_In _ _ _ _ _ _ Hrun Ht) as (entry & _ & Hentry).
    destruct (Kind_eqb (kind entry) kind_file || Z.eqb depth maxDepth) eqn:Hleaf.
    + injection Hentry as <-. split; [lia | reflexivity].
    + apply orb_false_iff in Hleaf as [_ Hneq]. apply Z.eqb_neq in Hneq.
      split; lia.
  - cbn [nodes_at] in Ht. apply in_flat_map in Ht as (t0 & Ht0 & Ht).
    destruct (for_each_In _ _ _ _ _ _ Hrun Ht0) as (entry & _ & Hentry).
    destruct (Kind_eqb (kind entry) kind_file || Z.eqb depth maxDepth) eqn:Hleaf.
    + injection Hentry as <-. contradiction.
    + apply orb_false_iff in Hleaf as [_ Hneq]. apply Z.eqb_neq in Hneq.
      destruct (_tree enumerate_tree fuel type maxDepth (depth + 1) entry) as [tre|] eqn:Htre;
        [|discriminate].
      cbn in Hentry. injection Hentry as <-. cbn [children] in Ht.
      destruct (IH _ _ _ _ _ Htre ltac:(lia) n t Ht) as [Hbound Hceil].
      split; [lia|]. intros Heq. apply Hceil. lia.
Qed.

(** C5: for every directory tree and every integer maxDepth d >= 1, the
    tree the builder returns has no node further than d from the root, and
    every node at distance exactly d has undefined children, whatever the
    entry it stands for contains. *)
Theorem tree_respects_max_depth :
  forall (type : FilterType) (d : Z) (cd : FileSystemHandle) (k : nat),
    (1 <= d)%Z ->
    exists out,
      _tree enumerate_tree (enough cd + k) type d 1 cd = Some out /\
      (forall n t, In t (nodes_at n out) -> (Z.of_nat n <= d)%Z) /\
      (forall t, In t (nodes_at (Z.to_nat d) out) -> children t = None).
Proof.
  intros type d cd k Hd.
  destruct (_tree_returns (enough cd + k) type d 1%Z cd) as (out & Hout);
    [unfold enough; lia|].
  exists out. split; [exact Hout|]. split.
  - intros [|n] t Ht; [contradiction|].
    destruct (_tree_levels _ _ _ _ _ _ Hout Hd n t Ht) as [Hbound _]. lia.
  - intros t Ht.
    destruct (Z.to_nat d) as [|n] eqn:Hn; [contradiction|].
    destruct (_tree_levels _ _ _ _ _ _ Hout Hd n t Ht) as [_ Hceil].
    apply Hceil. lia.
Qed.

Lemma tree_respects_max_depth_witness :
  exists out,
    _tree enumerate_tree (enough (mkHandle [] Fixtures.two_level) + 0) f_all 1 1
          (mkHandle [] Fixtures.two_level) = Some out /\
    (forall n t, In t (nodes_at n out) -> (Z.of_nat n <= 1)%Z) /\
    (forall t, In t (nodes_at (Z.to_nat 1) out) -> children t = None).
Proof.
  apply (tree_respects_max_depth f_all 1%Z (mkHandle [] Fixtures.two_level) 0).
  lia.
Defined.

Lemma for_each_ext (A B : Type) (f g : A -> option B) (xs : list A) :
  (forall x, f x = g x) -> for_each f xs = for_each g xs.
Proof.
  intros Hfg. induction xs as [|x xs IH]; [reflexivity|].
  cbn [for_each]. now rewrite Hfg, IH.
Qed.

Lemma number_eq_of_Z (q M : Number.number) (d m : Z) :
  QArith_base.Qeq q (Number.of_Z d) ->
  QArith_base.Qeq M (Number.of_Z m) ->
  Number.strict_eq q M = Z.eqb d m.
Proof.
  destruct q as [a b], M as [a' b'].
  unfold Number.strict_eq, Number.of_Z, QArith_base.Qeq, QArith_base.inject_Z.
  cbn [QArith_base.Qnum QArith_base.Qden]. intros Hq HM.
  assert (a = d * Z.pos b)%Z as -> by lia.
  assert (a' = m * Z.pos b')%Z as -> by lia.
  destruct (Z.eqb_spec d m) as [->|Hne].
  - apply QArith_base.Qeq_bool_iff. unfold QArith_base.Qeq.
    cbn [QArith_base.Qnum QArith_base.Qden]. lia.
  - destruct (QArith_base.Qeq_bool _ _) eqn:E; [|reflexivity].
    apply QArith_base.Qeq_bool_iff in E. unfold QArith_base.Qeq in E.
    cbn [QArith_base.Qnum QArith_base.Qden] in E. exfalso.
    assert ((d - m) * (Z.pos b * Z.pos b') = 0)%Z as Hzero by lia.
    apply Z.mul_eq_0 in Hzero as [Hzero|Hzero]; [lia|].
    apply Z.mul_eq_0 in Hzero. lia.
Qed.

Lemma number_succ_of_Z (q : Number.number) (d : Z) :
  QArith_base.Qeq q (Number.of_Z d) ->
  QArith_base.Qeq (Number.add q (Number.of_Z 1)) (Number.of_Z (d + 1)).
Proof.
  destruct q as [a b].
  unfold Number.add, Number.of_Z, QArith_base.Qeq, QArith_base.Qplus,
    QArith_base.inject_Z.
  cbn [QArith_base.Qnum QArith_base.Qden]. intros Hq.
  rewrite Pos2Z.inj_mul. nia.
Qed.

(** At integer values of the ceiling and of the counter, the builder on
    numbers is the builder on integers. *)
Lemma _tree_number_on_integers
    (enumerate : FileSystemHandle -> option (list FileSystemHandle))
    (type : FilterType) (M : Number.number) (m : Z) :
  QArith_base.Qeq M (Number.of_Z m) ->
  forall (fuel : nat) (q : Number.number) (d : Z) (cd : FileSystemHandle),
    QArith_base.Qeq q (Number.of_Z d) ->
    _tree_number enumerate fuel type M q cd = _tree enumerate fuel type m d cd.
Proof.
  intros HM. induction fuel as [|fuel IH]; intros q d cd Hq; [reflexivity|].
  cbn [_tree_number _tree]. destruct (is_none type); [reflexivity|].
  destruct (enumerate cd) as [es|]; [|reflexivity]. cbn [obind].
  apply for_each_ext. intros entry.
  rewrite (number_eq_of_Z q M d m Hq HM).
  now rewrite (IH _ (d + 1)%Z entry (number_succ_of_Z q d Hq)).
Qed.

(** C5 as stated fails: the ceiling is a number and is compared with the
    counter by [===]; with maxDepth 1.5 over [root/{a.txt, sub/{b.txt}}]
    the counter, which takes the values 1, 2, ..., never equals it, and the
    tree the builder returns holds b.txt at distance 2 from the root. *)
Lemma tree_exceeds_fractional_ceiling :
  Number.le (Number.of_Z 1) Number.three_halves /\
  ~ within_ceiling f_all Number.three_halves (mkHandle [] Fixtures.two_level).
Proof.
  split; [discriminate|].
  intros (out & (fuel & Hrun) & Hbound).
  destruct fuel as [|[|fuel]]; [discriminate|discriminate|].
  cbn in Hrun. injection Hrun as <-.
  apply (Hbound 2 (TreeResult (mkHandle ["sub"; "b.txt"] (File "b.txt")) None)).
  - cbn. left. reflexivity.
  - reflexivity.
Qed.

(** Below 1 the ceiling is never met: the counter starts at 1 and only
    grows, so the whole tree is built. *)
Example depth_zero_has_no_ceiling :
  _tree enumerate_tree 2 f_all 0 1 (mkHandle [] Fixtures.two_level)
  = Some [TreeResult (mkHandle ["a.txt"] (File "a.txt")) None;
          TreeResult (mkHandle ["sub"] (Directory "sub" [File "b.txt"]))
            (Some [TreeResult (mkHandle ["sub"; "b.txt"] (File "b.txt")) None])].
Proof. reflexivity. Qed.

(** At the ceiling a non-empty directory is a leaf like any other. *)
Example ceiling_hides_contents :
  _tree enumerate_tree 1 f_all 1 1 (mkHandle [] Fixtures.two_level)
  = Some [TreeResult (mkHandle ["a.txt"] (File "a.txt")) None;
          TreeResult (mkHandle ["sub"] (Directory "sub" [File "b.txt"])) None].
Proof. reflexivity. Qed.

(** *** Reaching an entry by directory descent *)

Lemma descends_loc (cd h : FileSystemHandle) (segs : list string) :
  descends cd segs h -> h_loc h = h_loc cd ++ segs /\ segs <> [].
Proof.
  induction 1 as [cd h Hin | cd d segs h Hin _ [IHloc _]].
  - split; [now apply value_loc | discriminate].
  - split; [|discriminate].
    rewrite IHloc, (value_loc cd d Hin), <- app_assoc. reflexivity.
Qed.

Lemma file_has_no_values (h : FileSystemHandle) :
  kind h = kind_file -> values h = [].
Proof.
  unfold kind, values. destruct (h_ent h); [reflexivity | discriminate].
Qed.

Lemma nothing_descends_from_a_file (e x : FileSystemHandle) (segs : list string) :
  kind e = kind_file -> ~ descends e segs x.
Proof.
  intros Hfile Hdesc.
  pose proof (file_has_no_values e Hfile) as Hnil.
  inversion Hdesc as [? ? Hin | ? ? ? ? Hin _]; subst; rewrite Hnil in Hin;
    contradiction.
Qed.

(** *** The file-only filter *)

Lemma for_each_leaves (f : FileSystemHandle -> option WebFsTreeResult)
    (xs : list FileSystemHandle) :
  (forall x, In x xs -> f x = Some (leaf x)) ->
  for_each f xs = Some (map leaf xs).
Proof.
  induction xs as [|x xs IH]; intros H; cbn; [reflexivity|].
  rewrite (H x (or_introl eq_refl)), IH; [reflexivity|].
  intros x' Hx'. apply H. now right.
Qed.

Lemma _flat_leaves (xs : list FileSystemHandle) : _flat (map leaf xs) = xs.
Proof.
  unfold _flat. induction xs as [|x xs IH]; cbn; [reflexivity | now rewrite IH].
Qed.

(** Under the file-only filter one step of the builder is all there is. *)
Lemma _tree_file_only (k : nat) (maxDepth depth : Z) (cd : FileSystemHandle) :
  _tree enumerate_tree (S k) f_file maxDepth depth cd = Some (map leaf (direct_files cd)).
Proof.
  cbn [_tree is_none enumerate_tree obind]. rewrite _filterEntry_spec.
  apply for_each_leaves. intros entry Hentry.
  apply filter_In in Hentry as [_ Hfile]. cbn [passes] in Hfile.
  now rewrite Hfile.
Qed.

Lemma wrap_direct_files
    (q r : FileSystemHandle -> PermissionMode -> PermissionState)
    (xs : list FileSystemHandle) :
  (forall x, In x xs -> Kind_eqb (kind x) kind_file = true) ->
  defined
    (map (fun entry =>
            if Kind_eqb (kind entry) kind_file
            then option_map IsFile (WebFsFileHandle_create q r entry None)
            else option_map IsDirectory (WebFsDirectoryHandle_create q r entry None))
         xs)
  = map (fun h => IsFile (mkWebFsFileHandle h))
        (filter (fun h => _verifyPermission q r h read) xs).
Proof.
  induction xs as [|x xs IH]; intros Hfiles; [reflexivity|].
  cbn [map filter]. rewrite (Hfiles x (or_introl eq_refl)).
  unfold WebFsFileHandle_create at 1. cbn [default].
  destruct (_verifyPermission q r x read); cbn;
    rewrite IH; try reflexivity; intros x' Hx'; apply Hfiles; now right.
Qed.

(** C10: with the file-only filter the tree builder, names, list and tree
    return the direct file children of the root and nothing deeper,
    whatever the depth asked for ([list] wraps those of them that pass the
    permission gate). *)
Theorem file_only_returns_direct_files :
  forall (q r : FileSystemHandle -> PermissionMode -> PermissionState)
         (this : WebFsDirectoryHandle) (depth : option Z) (k : nat),
    let options := mkListOptions (Some true) (Some false) depth in
    let files := direct_files (_handle this) in
    (forall maxDepth, _tree enumerate_tree (S k) f_file maxDepth 1 (_handle this)
                      = Some (map leaf files)) /\
    names enumerate_tree (S k) this options = Some (map name files) /\
    list_ q r enumerate_tree (S k) this options
      = Some (map (fun h => IsFile (mkWebFsFileHandle h))
                  (filter (fun h => _verifyPermission q r h read) files)) /\
    tree enumerate_tree (S k) this options
      = Some (TreeResult (_handle this) (Some (map leaf files))).
Proof.
  intros q r this depth k options files.
  assert (Hfiles : forall x, In x files -> Kind_eqb (kind x) kind_file = true).
  { intros x Hx. apply filter_In in Hx. tauto. }
  repeat split.
  - intros maxDepth. apply _tree_file_only.
  - unfold names, options. cbn [opt_file opt_dir opt_depth default negb andb toFilterType].
    rewrite _tree_file_only. cbn [obind]. now rewrite _flat_leaves.
  - unfold list_, options. cbn [opt_file opt_dir opt_depth default negb andb toFilterType].
    rewrite _tree_file_only. cbn [obind]. rewrite _flat_leaves.
    fold files. now rewrite (wrap_direct_files q r files Hfiles).
  - unfold tree, options. cbn [opt_file opt_dir opt_depth default negb andb toFilterType].
    now rewrite _tree_file_only.
Qed.

(** *** Filtering prunes *)

Create HintDb descent.

#[local] Hint Constructors descends kept : descent.

Lemma kept_passes (type : FilterType) (cd h : FileSystemHandle) :
  kept type cd h -> passes type h = true.
Proof. induction 1; assumption. Qed.

(** Everything in a flattened tree was reached through entries that pass
    the filter. *)
Lemma _tree_kept (fuel : nat) :
  forall (type : FilterType) (maxDepth depth : Z) (cd : FileSystemHandle)
         (out : list WebFsTreeResult),
    _tree enumerate_tree fuel type maxDepth depth cd = Some out ->
    forall h, In h (_flat out) -> kept type cd h.
Proof.
  induction fuel as [|fuel IH]; intros type maxDepth depth cd out Hrun h Hh;
    [discriminate|].
  cbn [_tree enumerate_tree obind] in Hrun.
  destruct (is_none type); [injection Hrun as <-; contradiction|].
  unfold _flat in Hh. apply in_flat_map in Hh as (t & Ht & Hh).
  destruct (for_each_In _ _ _ _ _ _ Hrun Ht) as (entry & Hentry & Hbuilt).
  apply in_filterEntry in Hentry as [Hin Hpass].
  destruct (Kind_eqb (kind entry) kind_file || Z.eqb depth maxDepth).
  - injection Hbuilt as <-. destruct Hh as [<-|[]]. auto with descent.
  - destruct (_tree enumerate_tree fuel type maxDepth (depth + 1) entry) as [tre|] eqn:Htre;
      [|discriminate].
    cbn in Hbuilt. injection Hbuilt as <-.
    destruct Hh as [<-|Hh]; [auto with descent|].
    pose proof (IH _ _ _ _ _ Htre h Hh). eauto with descent.
Qed.

(** Prune, not trim, under every filter: nothing below an entry the filter
    rejects is in the output. *)
Lemma excluded_subtree_is_pruned (fuel : nat) (type : FilterType)
    (maxDepth depth : Z) (cd : FileSystemHandle) (out : list WebFsTreeResult) :
  _tree enumerate_tree fuel type maxDepth depth cd = Some out ->
  forall (e x : FileSystemHandle) (segs segs' : list string),
    descends cd segs e -> passes type e = false -> descends e segs' x ->
    ~ In x (_flat out).
Proof.
  intros Hrun e x segs segs' Hce Hexcl Hex Hx.
  destruct type; cbn [passes] in Hexcl.
  - destruct fuel; [discriminate|]. cbn in Hrun. injection Hrun as <-.
    contradiction.
  - destruct fuel; [discriminate|].
    rewrite _tree_file_only in Hrun. injection Hrun as <-.
    rewrite _flat_leaves in Hx. apply filter_In in Hx as [Hx _].
    pose proof (value_loc cd x Hx) as Hlx.
    destruct (descends_loc _ _ _ Hce) as [Hle Hne].
    destruct (descends_loc _ _ _ Hex) as [Hlx' Hne'].
    rewrite Hlx', Hle, <- app_assoc in Hlx. apply app_inv_head in Hlx.
    apply (f_equal (@List.length string)) in Hlx.
    rewrite length_app in Hlx. cbn in Hlx.
    destruct segs; [contradiction|]. destruct segs'; [contradiction|].
    cbn in Hlx. lia.
  - apply (nothing_descends_from_a_file e x segs'); [|assumption].
    unfold kind in *. destruct (entry_kind (h_ent e)); [reflexivity | discriminate].
  - discriminate.
Qed.

(** C6: with the directory-only filter (files excluded, directories
    included) the flattened output of the tree builder has no File entry,
    every entry in it was reached through entries that passed the filter,
    and nothing below a filtered-out entry is in it: the filter is applied
    to each child list before the recursion. *)
Theorem directory_only_prunes :
  forall (maxDepth : Z) (cd : FileSystemHandle) (k : nat),
    toFilterType false true = f_dir /\
    exists out,
      _tree enumerate_tree (enough cd + k) f_dir maxDepth 1 cd = Some out /\
      (forall h, In h (_flat out) -> kind h = kind_directory) /\
      (forall h, In h (_flat out) -> kept f_dir cd h) /\
      (forall (e x : FileSystemHandle) (segs segs' : list string),
          descends cd segs e -> passes f_dir e = false -> descends e segs' x ->
          ~ In x (_flat out)).
Proof.
  intros maxDepth cd k. split; [reflexivity|].
  destruct (_tree_returns (enough cd + k) f_dir maxDepth 1%Z cd) as (out & Hout);
    [unfold enough; lia|].
  exists out. split; [exact Hout|]. repeat split.
  - intros h Hh. apply Kind_eqb_eq.
    exact (kept_passes f_dir cd h (_tree_kept _ _ _ _ _ _ Hout h Hh)).
  - intros h Hh. exact (_tree_kept _ _ _ _ _ _ Hout h Hh).
  - intros e x segs segs'. exact (excluded_subtree_is_pruned _ _ _ _ _ _ Hout e x segs segs').
Qed.

(** The same pruning seen with the file-only filter: [sub/b.txt] is a file,
    but [sub] is filtered out before the recursion. *)
Example file_only_misses_nested_file :
  names enumerate_tree 3 (Fixtures.root_of Fixtures.two_level)
        (mkListOptions (Some true) (Some false) (Some 2%Z))
  = Some ["a.txt"].
Proof. reflexivity. Qed.

(** *** The glob engine: what it is compared with *)

Lemma descendants_unfold (cd : FileSystemHandle) :
  descendants cd
  = flat_map (fun d => ([name d], d)
                       :: map (fun sh => (name d :: fst sh, snd sh)) (descendants d))
             (values cd).
Proof.
  unfold descendants, values.
  destruct (h_ent cd) as [n|n cs]; [reflexivity|].
  cbn [descendants_of entry_children].
  generalize (h_loc cd) as loc. intros loc.
  induction cs as [|c cs IH]; [reflexivity|].
  cbn [flat_map map]. rewrite IH. reflexivity.
Qed.

Lemma descends_in_descendants (cd h : FileSystemHandle) (segs : list string) :
  descends cd segs h -> In (segs, h) (descendants cd).
Proof.
  induction 1 as [cd h Hin | cd d segs h Hin _ IH];
    rewrite descendants_unfold; apply in_flat_map.
  - exists h. split; [assumption | now left].
  - exists d. split; [assumption|]. right.
    apply in_map_iff. now exists (segs, h).
Qed.

Lemma descends_from_directory (d h : FileSystemHandle) (segs : list string) :
  descends d segs h -> passes f_dir d = true.
Proof.
  intros Hdesc. cbn [passes]. apply Kind_eqb_eq.
  destruct (kind d) eqn:Hk; [|reflexivity].
  now destruct (nothing_descends_from_a_file d h segs Hk).
Qed.

Lemma prefix_join (path d : string) (segs : list string) :
  segs <> [] ->
  (path +++ d +++ "/") +++ Js.join "/" segs = path +++ Js.join "/" (d :: segs).
Proof.
  intros Hne. rewrite (join_cons_nonempty d segs Hne).
  now rewrite !append_assoc3.
Qed.

Lemma in_concat_for_each (A B : Type) (f : A -> option (list B)) (xs : list A)
    (ys : list (list B)) (y : B) :
  for_each f xs = Some ys ->
  (In y (List.concat ys) <-> exists x l, In x xs /\ f x = Some l /\ In y l).
Proof.
  intros Hrun. rewrite in_concat. split.
  - intros (l & Hl & Hy).
    destruct (for_each_In _ _ _ _ _ _ Hrun Hl) as (x & Hx & Hfx). eauto.
  - intros (x & l & Hx & Hfx & Hy).
    destruct (for_each_covers _ _ _ _ _ _ Hrun Hx) as (l' & Hl' & Hfx').
    rewrite Hfx in Hfx'. injection Hfx' as <-. eauto.
Qed.

(** *** Filtering with a callback that may throw *)

Lemma filter_each_In (A : Type) (f : A -> option bool) (xs : list A) :
  forall ys y, filter_each f xs = Some ys ->
    (In y ys <-> In y xs /\ f y = Some true).
Proof.
  induction xs as [|x xs IH]; intros ys y Hrun; cbn in Hrun.
  - injection Hrun as <-. cbn. tauto.
  - destruct (f x) as [keep|] eqn:Hfx; [|discriminate].
    destruct (filter_each f xs) as [zs|] eqn:Hrest; [|discriminate].
    cbn in Hrun. injection Hrun as <-.
    specialize (IH zs y eq_refl).
    destruct keep; cbn [In]; rewrite IH; split.
    + intros [<-|[Hin Hy]]; [split; [now left | exact Hfx] | split; [now right | exact Hy]].
    + intros [[->|Hin] Hy]; [now left | right; now split].
    + intros [Hin Hy]. split; [now right | exact Hy].
    + intros [[->|Hin] Hy]; [congruence | now split].
Qed.

Lemma filter_each_defined (A : Type) (f : A -> option bool) (xs : list A) :
  forall ys x, filter_each f xs = Some ys -> In x xs -> f x <> None.
Proof.
  induction xs as [|x0 xs IH]; intros ys x Hrun Hx; [contradiction|].
  cbn in Hrun.
  destruct (f x0) as [keep|] eqn:Hfx; [|discriminate].
  destruct (filter_each f xs) as [zs|] eqn:Hrest; [|discriminate].
  destruct Hx as [<-|Hx]; [congruence | exact (IH zs x eq_refl Hx)].
Qed.

Lemma filter_each_returns (A : Type) (f : A -> option bool) (xs : list A) :
  (forall x, In x xs -> f x <> None) -> exists ys, filter_each f xs = Some ys.
Proof.
  induction xs as [|x xs IH]; intros Hdef; cbn; [now exists []|].
  destruct (f x) as [keep|] eqn:Hfx.
  - destruct IH as (ys & ->); [intros x' Hx'; apply Hdef; now right|].
    cbn. eauto.
  - now destruct (Hdef x (or_introl eq_refl)).
Qed.

(** *** The glob engine: soundness, termination, completeness *)

(** The loop over the directories descended into has run to its end. *)
Ltac loop_ran below Hloop :=
  destruct (for_each _ _) as [below|] eqn:Hloop; [|discriminate].

(** So has the filter. *)
Ltac filter_ran matched Hfilter :=
  destruct (filter_each _ _) as [matched|] eqn:Hfilter; [|discriminate].

Section GlobEngine.

Variable isMatch : string -> string -> bool.
Variable patterns : list string.

Let P : string := Js.join "/" patterns.

Lemma micromatch_accepts (candidate : string) (pattern : option string) :
  micromatch_isMatch isMatch candidate pattern = Some true ->
  exists p, pattern = Some p /\ isMatch candidate p = true.
Proof.
  destruct pattern as [p|]; [|discriminate]. cbn.
  destruct (String.eqb p ""); [discriminate|].
  intros [= Hm]. now exists p.
Qed.

Lemma micromatch_answers (candidate p : string) :
  p <> "" -> micromatch_isMatch isMatch candidate (Some p) = Some (isMatch candidate p).
Proof.
  intros Hne. cbn. now destruct (String.eqb_spec p "").
Qed.

Lemma micromatch_accepts_if_defined (candidate p : string) :
  micromatch_isMatch isMatch candidate (Some p) <> None ->
  isMatch candidate p = true ->
  micromatch_isMatch isMatch candidate (Some p) = Some true.
Proof.
  cbn. destruct (String.eqb p ""); [congruence|]. now intros _ ->.
Qed.

Lemma is_last_iff (idx : nat) :
  Z.eqb (Z.of_nat idx) (Z.of_nat (List.length patterns) - 1) = true
  <-> S idx = List.length patterns.
Proof. rewrite Z.eqb_eq. lia. Qed.

(** At the last segment the files of the current directory are tested
    against the whole pattern. *)
Lemma _glob_at_last (n idx : nat) (cd : FileSystemHandle) (path : string)
    (res : list FileSystemHandle) :
  S idx = List.length patterns ->
  _glob isMatch enumerate_tree (S n) patterns idx cd path = Some res ->
  forall h, In h res
            <-> In h (values cd) /\ kind h = kind_file
                /\ isMatch (path +++ name h) P = true.
Proof.
  intros Hlast Hrun h. cbn [_glob enumerate_tree obind] in Hrun.
  rewrite (proj2 (is_last_iff idx) Hlast) in Hrun.
  filter_ran matched Hfilter. cbn [obind] in Hrun. injection Hrun as <-.
  rewrite (filter_each_In _ _ _ _ h Hfilter), in_filterEntry.
  cbn [passes]. rewrite Kind_eqb_eq. split.
  - intros [[Hin Hk] Hm]. apply micromatch_accepts in Hm as (p & [= <-] & Hm). auto.
  - intros (Hin & Hk & Hm).
    assert (Hfile : In h (_filterEntry f_file (values cd))).
    { apply in_filterEntry. cbn [passes]. rewrite Kind_eqb_eq. auto. }
    repeat split; try assumption.
    apply micromatch_accepts_if_defined; [|exact Hm].
    exact (filter_each_defined _ _ _ _ _ Hfilter Hfile).
Qed.

Lemma _glob_at_last_returns (n idx : nat) (cd : FileSystemHandle) (path : string) :
  P <> "" ->
  S idx = List.length patterns ->
  exists res, _glob isMatch enumerate_tree (S n) patterns idx cd path = Some res.
Proof.
  intros Hne Hlast. cbn [_glob enumerate_tree obind].
  rewrite (proj2 (is_last_iff idx) Hlast). unfold P in Hne.
  destruct (filter_each_returns _
              (fun entry => micromatch_isMatch isMatch (path +++ name entry)
                              (Some (Js.join "/" patterns)))
              (_filterEntry f_file (values cd))) as (matched & ->).
  { intros x _. rewrite (micromatch_answers _ _ Hne). discriminate. }
  cbn. eauto.
Qed.

(** Whatever the engine returns is a file below the directory it started
    from whose accumulated path matches the joined pattern. *)
Lemma _glob_sound (fuel : nat) :
  forall (idx : nat) (cd : FileSystemHandle) (path : string)
         (res : list FileSystemHandle),
    _glob isMatch enumerate_tree fuel patterns idx cd path = Some res ->
    forall h, In h res ->
      kind h = kind_file /\
      exists segs, descends cd segs h /\ isMatch (path +++ Js.join "/" segs) P = true.
Proof.
  induction fuel as [|fuel IH]; intros idx cd path res Hrun h Hh; [discriminate|].
  assert (Hbelow : forall (dirs : list FileSystemHandle) (j : nat)
                     (below : list (list FileSystemHandle)),
             (forall d, In d dirs -> In d (values cd)) ->
             for_each (fun dir => _glob isMatch enumerate_tree fuel patterns j dir
                                    (path +++ name dir +++ "/")) dirs = Some below ->
             In h (List.concat below) ->
             kind h = kind_file /\
             exists segs, descends cd segs h
                          /\ isMatch (path +++ Js.join "/" segs) P = true).
  { intros dirs j below Hsub Hloop Hin.
    apply (in_concat_for_each _ _ _ _ _ _ Hloop) in Hin as (d & l & Hd & Hl & Hin).
    destruct (IH _ _ _ _ Hl h Hin) as (Hk & segs & Hdesc & Hm).
    split; [exact Hk|]. exists (name d :: segs). split.
    - apply descends_step; [now apply Hsub | exact Hdesc].
    - rewrite <- prefix_join; [exact Hm | exact (proj2 (descends_loc _ _ _ Hdesc))]. }
  destruct (Z.eqb (Z.of_nat idx) (Z.of_nat (List.length patterns) - 1)) eqn:Hlast.
  - apply is_last_iff in Hlast.
    apply (_glob_at_last _ _ _ _ _ Hlast Hrun) in Hh as (Hin & Hk & Hm).
    split; [exact Hk|]. exists [name h]. split; [now constructor | exact Hm].
  - cbn [_glob enumerate_tree obind] in Hrun. rewrite Hlast in Hrun.
    destruct (Js.strict_eq (nth_error patterns idx) "**").
    + destruct (_glob isMatch enumerate_tree fuel patterns (List.length patterns - 1) cd path)
        as [files'|] eqn:Hfiles; [|discriminate].
      cbn [obind] in Hrun. loop_ran below Hloop.
      injection Hrun as <-. apply in_app_or in Hh as [Hh|Hh].
      * exact (IH _ _ _ _ Hfiles h Hh).
      * apply (Hbelow _ _ _ (fun d Hd => proj1 (proj1 (in_filterEntry _ _ _) Hd)) Hloop Hh).
    + filter_ran matchedDirs Hfilter. cbn [obind] in Hrun. loop_ran below Hloop.
      injection Hrun as <-.
      refine (Hbelow _ _ _ _ Hloop Hh).
      intros d Hd. apply (filter_each_In _ _ _ _ d Hfilter) in Hd as [Hd _].
      now apply in_filterEntry in Hd.
Qed.

(** With fuel above the height of the tree the engine returns, provided
    the matcher is never handed an empty pattern. *)
Lemma _glob_returns (fuel : nat) :
  P <> "" -> ~ In "" patterns ->
  forall (idx : nat) (cd : FileSystemHandle) (path : string),
    idx < List.length patterns ->
    height (h_ent cd) + 2 <= fuel ->
    exists res, _glob isMatch enumerate_tree fuel patterns idx cd path = Some res.
Proof.
  intros Hne Hsegs.
  induction fuel as [|fuel IH]; intros idx cd path Hidx Hfuel; [lia|].
  assert (Hloop : forall (dirs : list FileSystemHandle) (j : nat),
             j < List.length patterns ->
             (forall d, In d dirs -> In d (values cd)) ->
             exists below,
               for_each (fun dir => _glob isMatch enumerate_tree fuel patterns j dir
                                      (path +++ name dir +++ "/")) dirs = Some below).
  { intros dirs j Hj Hsub. apply for_each_returns. intros d Hd.
    apply IH; [exact Hj|]. pose proof (height_of_value cd d (Hsub d Hd)). lia. }
  destruct (Z.eqb (Z.of_nat idx) (Z.of_nat (List.length patterns) - 1)) eqn:Hlast.
  { apply is_last_iff in Hlast. now apply _glob_at_last_returns. }
  assert (Hnext : S idx < List.length patterns).
  { apply Z.eqb_neq in Hlast. lia. }
  cbn [_glob enumerate_tree obind]. rewrite Hlast.
  destruct (Js.strict_eq (nth_error patterns idx) "**") eqn:Hstar.
  - destruct fuel as [|fuel']; [lia|].
    destruct (_glob_at_last_returns fuel' (List.length patterns - 1) cd path Hne)
      as (files' & ->); [lia|].
    cbn [obind].
    destruct (Hloop (_filterEntry f_dir (values cd)) idx Hidx) as (below & ->).
    { intros d Hd. now apply in_filterEntry in Hd. }
    cbn [obind]. eauto.
  - destruct (nth_error patterns idx) as [p|] eqn:Hp;
      [|apply nth_error_None in Hp; lia].
    assert (Hp' : p <> "").
    { intros ->. apply Hsegs. now apply nth_error_In with (n := idx). }
    destruct (filter_each_returns _
                (fun entry => micromatch_isMatch isMatch (name entry) (Some p))
                (_filterEntry f_dir (values cd))) as (matchedDirs & Hfilter).
    { intros x _. rewrite (micromatch_answers _ _ Hp'). discriminate. }
    rewrite Hfilter. cbn [obind].
    destruct (Hloop matchedDirs (idx + 1)) as (below & ->); [lia| |].
    { intros d Hd. apply (filter_each_In _ _ _ _ d Hfilter) in Hd as [Hd _].
      now apply in_filterEntry in Hd. }
    cbn [obind]. eauto.
Qed.


(** Without recursive marker the engine finds the files that lie on the
    descent the pattern prescribes. *)
Lemma _glob_complete_segmentwise (fuel : nat) :
  forall (idx : nat) (cd : FileSystemHandle) (path : string)
         (res : list FileSystemHandle),
    ~ In "**" patterns ->
    _glob isMatch enumerate_tree fuel patterns idx cd path = Some res ->
    forall segs h,
      descends cd segs h -> kind h = kind_file ->
      isMatch (path +++ Js.join "/" segs) P = true ->
      dirs_match isMatch patterns idx segs = true ->
      In h res.
Proof.
  induction fuel as [|fuel IH]; intros idx cd path res Hplain Hrun segs h Hdesc Hk Hm Hdirs;
    [discriminate|].
  inversion Hdesc as [cd' h' Hin | cd' d segs' h' Hin Hdesc']; subst.
  - cbn [dirs_match] in Hdirs. apply Nat.eqb_eq in Hdirs.
    apply (_glob_at_last _ _ _ _ _ Hdirs Hrun).
    cbn [Js.join] in Hm. auto.
  - cbn [_glob enumerate_tree obind] in Hrun.
    destruct (descends_loc _ _ _ Hdesc') as [_ Hne].
    destruct segs' as [|s segs']; [contradiction|].
    cbn [dirs_match] in Hdirs.
    destruct (nth_error patterns idx) as [p|] eqn:Hp; [|discriminate].
    apply andb_true_iff in Hdirs as [Hmd Hrest].
    assert (Hnotlast : Z.eqb (Z.of_nat idx) (Z.of_nat (List.length patterns) - 1) = false).
    { apply not_true_is_false. intros Hlast. apply is_last_iff in Hlast.
      destruct segs'; cbn [dirs_match] in Hrest.
      - apply Nat.eqb_eq in Hrest. lia.
      - destruct (nth_error patterns (S idx)) eqn:Hnext; [|discriminate].
        assert (S idx < List.length patterns)
          by (apply nth_error_Some; rewrite Hnext; discriminate).
        lia. }
    rewrite Hnotlast in Hrun.
    assert (Hnostar : Js.strict_eq (Some p) "**" = false).
    { apply not_true_is_false. intros Heq. cbn in Heq. apply String.eqb_eq in Heq.
      subst p. apply Hplain. now apply nth_error_In with (n := idx). }
    rewrite Hnostar in Hrun.
    filter_ran matchedDirs Hfilter. cbn [obind] in Hrun. loop_ran below Hloop.
    injection Hrun as <-.
    apply (in_concat_for_each _ _ _ _ _ _ Hloop).
    assert (Hdir : In d (_filterEntry f_dir (values cd))).
    { apply in_filterEntry. split; [exact Hin|].
      exact (descends_from_directory d h _ Hdesc'). }
    assert (Hd : In d matchedDirs).
    { apply (filter_each_In _ _ _ _ d Hfilter). split; [exact Hdir|].
      apply micromatch_accepts_if_defined; [|exact Hmd].
      exact (filter_each_defined _ _ _ _ _ Hfilter Hdir). }
    destruct (for_each_covers _ _ _ _ _ _ Hloop Hd) as (l & _ & Hl).
    exists d, l. repeat split; try assumption.
    rewrite Nat.add_1_r in Hl.
    apply (IH _ _ _ _ Hplain Hl (s :: segs') h Hdesc' Hk); [|exact Hrest].
    rewrite prefix_join; [exact Hm | discriminate].
Qed.

End GlobEngine.

(** *** The glob operation *)



Lemma split_length_positive (P : string) : 0 < List.length (Js.split "/"%char P).
Proof.
  pose proof (split_not_nil "/"%char P).
  destruct (Js.split "/"%char P); [contradiction | cbn; lia].
Qed.




(** *** The engine on patterns without recursive marker *)

(** C3, as the code has it: for a non-empty pattern without "**" segment
    the engine returns only files whose path matches the pattern, and it
    returns all of them provided the matcher accepts the files of the tree
    segment by segment (a matching path has as many segments as the
    pattern, and each directory name on it matches its own segment). The
    engine returns when no segment of the pattern is empty. *)
Theorem engine_exact_when_segmentwise :
  forall (isMatch : string -> string -> bool) (cd : FileSystemHandle) (P : string),
    P <> "" ->
    ~ In "**" (Js.split "/"%char P) ->
    (forall fuel entries,
        _glob isMatch enumerate_tree fuel (Js.split "/"%char P) 0 cd "" = Some entries ->
        (forall h, In h entries -> matching_file isMatch cd P h) /\
        (segmentwise isMatch P cd = true ->
         forall h, matching_file isMatch cd P h -> In h entries)) /\
    (~ In "" (Js.split "/"%char P) ->
     forall k, exists entries,
       _glob isMatch enumerate_tree (enough cd + k) (Js.split "/"%char P) 0 cd ""
       = Some entries).
Proof.
  intros isMatch cd P Hne Hplain. split.
  - intros fuel entries Hrun. split.
    + intros h Hin.
      destruct (_glob_sound isMatch _ _ _ _ _ _ Hrun _ Hin) as (Hk & segs & Hdesc & Hm).
      rewrite join_split in Hm. split; [exact Hk|]. now exists segs.
    + intros Hseg h (Hk & segs & Hdesc & Hm).
      unfold segmentwise in Hseg. rewrite forallb_forall in Hseg.
      specialize (Hseg _ (descends_in_descendants _ _ _ Hdesc)). cbn [fst snd] in Hseg.
      rewrite Hm, (proj2 (Kind_eqb_eq _ _) Hk) in Hseg. cbn [andb implb] in Hseg.
      apply (_glob_complete_segmentwise isMatch _ _ _ _ _ _ Hplain Hrun segs h Hdesc Hk);
        [|exact Hseg].
      now rewrite join_split.
  - intros Hsegs k.
    apply (_glob_returns isMatch (Js.split "/"%char P) (enough cd + k)).
    + now rewrite join_split.
    + exact Hsegs.
    + apply split_length_positive.
    + unfold enough. lia.
Qed.

Lemma engine_exact_when_segmentwise_witness :
  exists entries,
    _glob Micromatch.isMatch enumerate_tree 4 (Js.split "/"%char "src/*.ts") 0
          (mkHandle [] Fixtures.sources) "" = Some entries /\
    forall h,
      In h entries
      <-> matching_file Micromatch.isMatch (mkHandle [] Fixtures.sources) "src/*.ts" h.
Proof.
  eexists. split; [reflexivity|].
  destruct (engine_exact_when_segmentwise Micromatch.isMatch
              (mkHandle [] Fixtures.sources) "src/*.ts") as [Hexact _].
  - discriminate.
  - cbn. intros [H|[H|[]]]; discriminate.
  - destruct (Hexact 4 _ eq_refl) as [Hsound Hcomplete].
    intros h. split; [apply Hsound | apply Hcomplete; reflexivity].
Defined.

(** The proviso of the segment-by-segment reading holds on the example. *)
Example sources_are_read_segmentwise :
  segmentwise Micromatch.isMatch "src/*.ts" (mkHandle [] Fixtures.sources) = true
  /\ _glob Micromatch.isMatch enumerate_tree 4 (Js.split "/"%char "src/*.ts") 0
           (mkHandle [] Fixtures.sources) ""
     = Some [mkHandle ["src"; "a.ts"] (File "a.ts")].
Proof. split; reflexivity. Qed.

(** C3 as stated fails: "!src/a.ts" has no "**" segment, the file b.ts of
    the root matches it (the pattern is a negation), and the engine, which
    looks for a directory matched by "!src" first, returns nothing. *)
Lemma engine_misses_negated_pattern :
  "!src/a.ts" <> "" /\
  ~ In "**" (Js.split "/"%char "!src/a.ts") /\
  ~ engine_exact Micromatch.isMatch (mkHandle [] Fixtures.small) "!src/a.ts".
Proof.
  split; [discriminate|]. split; [cbn; intros [H|[H|[]]]; discriminate|].
  intros (entries & (fuel & Hrun) & Hiff).
  destruct fuel as [|fuel]; [discriminate|].
  cbn in Hrun. injection Hrun as <-.
  pose (h := mkHandle ["b.ts"] (File "b.ts")).
  assert (Hm : matching_file Micromatch.isMatch (mkHandle [] Fixtures.small)
                 "!src/a.ts" h).
  { split; [reflexivity|]. exists ["b.ts"]. split; [|reflexivity].
    apply (descends_child (mkHandle [] Fixtures.small) h). cbn. left. reflexivity. }
  apply Hiff in Hm. contradiction.
Qed.

(** A pattern with an empty segment makes the matcher throw as soon as a
    directory is tested against that segment, and glob, which catches
    nothing, has no result. *)
Example empty_segment_is_rejected :
  forall fuel,
    glob Micromatch.isMatch (Fixtures.always granted) (Fixtures.always granted)
         enumerate_tree fuel (Fixtures.root_of Fixtures.small) "/b.ts" = None.
Proof. intros [|fuel]; reflexivity. Qed.

(* ================================================================== *)
(** ** Further properties                                               *)
(* ================================================================== *)

(** *** The hexadecimal rendering of a digest *)

Lemma append_empty_r (s : string) : s +++ "" = s.
Proof. induction s as [|c s IH]; cbn; [reflexivity | now rewrite IH]. Qed.

Lemma join_empty_cons (x : string) (l : Datatypes.list string) :
  Js.join "" (x :: l) = x +++ Js.join "" l.
Proof.
  destruct l as [|y l]; cbn [Js.join]; [now rewrite append_empty_r | reflexivity].
Qed.

Lemma hash_hex_cons (b : Byte.byte) (bs : Datatypes.list Byte.byte) :
  Hex.hash_hex (b :: bs) = byte_hex b +++ Hex.hash_hex bs.
Proof. unfold Hex.hash_hex. cbn [map]. apply join_empty_cons. Qed.

Lemma byte_hex_shape (b : Byte.byte) :
  exists hi lo,
    byte_hex b = String hi (String lo EmptyString)
    /\ exists h l, hex_value hi = Some h /\ hex_value lo = Some l
                   /\ Byte.of_N (16 * h + l) = Some b.
Proof.
  destruct b; do 2 eexists; (split; [reflexivity|]); do 2 eexists;
    repeat split.
Qed.

Lemma length_append (a b : string) :
  String.length (a +++ b) = String.length a + String.length b.
Proof. induction a as [|c a IH]; cbn; [reflexivity | now rewrite IH]. Qed.

Lemma all_chars_append (p : ascii -> bool) (a b : string) :
  all_chars p (a +++ b) = all_chars p a && all_chars p b.
Proof.
  induction a as [|c a IH]; cbn; [reflexivity | now rewrite IH, andb_assoc].
Qed.

(** X1: the digest is rendered with exactly two characters a byte, all of
    them digits or the lowercase letters a to f. *)
Theorem hash_hex_two_digits_a_byte :
  forall hashArray : Datatypes.list Byte.byte,
    String.length (Hex.hash_hex hashArray) = 2 * List.length hashArray
    /\ all_chars is_hex_digit (Hex.hash_hex hashArray) = true.
Proof.
  induction hashArray as [|b bs [IHlen IHhex]]; [split; reflexivity|].
  rewrite hash_hex_cons, length_append, all_chars_append, IHlen, IHhex.
  destruct (byte_hex_shape b) as (hi & lo & -> & h & l & Hh & Hl & _).
  split; [cbn; lia|].
  cbn. unfold is_hex_digit. now rewrite Hh, Hl.
Qed.

(** X2: the rendering loses nothing: reading the digits back two by two
    gives the bytes, so two digests with the same rendering are equal. *)
Theorem hash_hex_round_trip :
  forall hashArray : Datatypes.list Byte.byte,
    from_hex (Hex.hash_hex hashArray) = Some hashArray
    /\ forall other, Hex.hash_hex other = Hex.hash_hex hashArray -> other = hashArray.
Proof.
  assert (Hback : forall bs, from_hex (Hex.hash_hex bs) = Some bs).
  { induction bs as [|b bs IH]; [reflexivity|].
    rewrite hash_hex_cons.
    destruct (byte_hex_shape b) as (hi & lo & -> & h & l & Hh & Hl & Hb).
    cbn [String.append from_hex]. now rewrite Hh, Hl, IH, Hb. }
  intros hashArray. split; [apply Hback|].
  intros other Heq. pose proof (Hback other) as Hother.
  rewrite Heq, Hback in Hother. now injection Hother.
Qed.

(** *** The list of picked files *)

Lemma defined_wrapped
    (q r : FileSystemHandle -> PermissionMode -> PermissionState)
    (mode : option PermissionMode) (handles : Datatypes.list FileSystemHandle) :
  defined (map (fun h => WebFsFileHandle_create q r h mode) handles)
  = map mkWebFsFileHandle
        (filter (fun h => _verifyPermission q r h (default read mode)) handles).
Proof.
  induction handles as [|h handles IH]; [reflexivity|].
  cbn [map filter]. unfold WebFsFileHandle_create at 1.
  destruct (_verifyPermission q r h (default read mode)); cbn; now rewrite IH.
Qed.

Lemma includes_undefined_wrapped
    (q r : FileSystemHandle -> PermissionMode -> PermissionState)
    (mode : option PermissionMode) (handles : Datatypes.list FileSystemHandle) :
  FileHandleList.includes_undefined
    (map (fun h => WebFsFileHandle_create q r h mode) handles)
  = negb (forallb (fun h => _verifyPermission q r h (default read mode)) handles).
Proof.
  unfold FileHandleList.includes_undefined.
  induction handles as [|h handles IH]; [reflexivity|].
  cbn [map existsb forallb]. rewrite IH. unfold WebFsFileHandle_create.
  destruct (_verifyPermission q r h (default read mode)); reflexivity.
Qed.

Lemma filter_all (A : Type) (p : A -> bool) (xs : Datatypes.list A) :
  forallb p xs = true -> filter p xs = xs.
Proof.
  induction xs as [|x xs IH]; [reflexivity|]. cbn.
  intros H. apply andb_true_iff in H as [-> Hxs]. now rewrite IH.
Qed.

(** X3: a list of files is wrapped all or nothing: the result holds
    every handle given, in the order given, when each of them passes the
    permission check, and there is no result as soon as one of them is
    refused. *)
Theorem file_list_is_all_or_nothing :
  forall (q r : FileSystemHandle -> PermissionMode -> PermissionState)
         (handles : Datatypes.list FileSystemHandle) (mode : option PermissionMode),
    FileHandleList.create q r handles mode
    = (if forallb (fun h => _verifyPermission q r h (default read mode)) handles
       then Some (FileHandleList.mkWebFsFileHandleList (map mkWebFsFileHandle handles))
       else None)
    /\ forall this,
         FileHandleList.create q r handles mode = Some this ->
         FileHandleList.names this = map name handles
         /\ FileHandleList.length this = List.length handles.
Proof.
  intros q r handles mode.
  assert (Hcreate :
            FileHandleList.create q r handles mode
            = (if forallb (fun h => _verifyPermission q r h (default read mode)) handles
               then Some (FileHandleList.mkWebFsFileHandleList
                            (map mkWebFsFileHandle handles))
               else None)).
  { unfold FileHandleList.create.
    rewrite includes_undefined_wrapped, defined_wrapped.
    destruct (forallb _ handles) eqn:Hall; cbn [negb]; [|reflexivity].
    now rewrite (filter_all _ _ _ Hall). }
  split; [exact Hcreate|].
  intros this Hthis. rewrite Hcreate in Hthis.
  destruct (forallb _ handles); [|discriminate]. injection Hthis as <-.
  unfold FileHandleList.names, FileHandleList.length. cbn.
  now rewrite map_map, length_map.
Qed.

(** X4: looking a file up by name in the list finds a handle exactly when
    the name is among [names()]; the handle found bears that name and is
    the first of the list to do so. *)
Theorem file_list_lookup :
  forall (this : FileHandleList.WebFsFileHandleList) (fileName : string),
    (In fileName (FileHandleList.names this)
     <-> FileHandleList.file this fileName <> None)
    /\ forall f,
         FileHandleList.file this fileName = Some f ->
         FileHandleList.handle_name f = fileName
         /\ exists before after,
              FileHandleList.list this = before ++ f :: after
              /\ ~ In fileName (map FileHandleList.handle_name before).
Proof.
  intros [handles] fileName.
  unfold FileHandleList.names, FileHandleList.file, FileHandleList.list. cbn.
  induction handles as [|h handles [IHin IHfound]]; cbn [map find In].
  - split; [split; [contradiction | congruence] | discriminate].
  - destruct (String.eqb_spec (FileHandleList.handle_name h) fileName) as [Heq|Hne].
    + split; [split; [discriminate | now left]|].
      intros f [= <-]. split; [exact Heq|].
      exists [], handles. split; [reflexivity | intros []].
    + split.
      * rewrite <- IHin. split; [intros [?|?]; [contradiction | assumption] | now right].
      * intros f Hf. destruct (IHfound f Hf) as (Hname & before & after & -> & Hfirst).
        split; [exact Hname|].
        exists (h :: before), after. split; [reflexivity|].
        cbn. intros [?|?]; [contradiction | now apply Hfirst].
Qed.

(** *** Listings: the empty filter, one level, the whole tree *)

(** X5: with files and directories both excluded, names and list return
    nothing, tree returns the root with an empty child list and treeString
    the root line alone, whatever the depth, and without enumerating the
    host: the results are the same on every host, failing ones included. *)
Theorem empty_filter_lists_nothing :
  forall (q r : FileSystemHandle -> PermissionMode -> PermissionState)
         (enumerate : FileSystemHandle -> option (Datatypes.list FileSystemHandle))
         (fuel : nat) (this : WebFsDirectoryHandle) (depth : option Z),
    let options := mkListOptions (Some false) (Some false) depth in
    names enumerate fuel this options = Some []
    /\ list_ q r enumerate fuel this options = Some []
    /\ tree enumerate (S fuel) this options
       = Some (TreeResult (_handle this) (Some []))
    /\ treeString enumerate (S fuel) this options
       = Some (name (_handle this) +++ "/").
Proof. intros. repeat split. Qed.

Lemma list_entries_wrapped
    (q r : FileSystemHandle -> PermissionMode -> PermissionState)
    (xs : Datatypes.list FileSystemHandle) :
  defined
    (map (fun entry =>
            if Kind_eqb (kind entry) kind_file
            then option_map IsFile (WebFsFileHandle_create q r entry None)
            else option_map IsDirectory (WebFsDirectoryHandle_create q r entry None))
         xs)
  = map wrapper (filter (fun h => _verifyPermission q r h read) xs).
Proof.
  induction xs as [|x xs IH]; [reflexivity|].
  cbn [map filter]. unfold WebFsFileHandle_create at 1, WebFsDirectoryHandle_create at 1.
  cbn [default].
  destruct (_verifyPermission q r x read); cbn [negb map]; unfold wrapper at 1;
    destruct (Kind_eqb (kind x) kind_file); cbn; now rewrite IH.
Qed.

Lemma filter_none (xs : Datatypes.list FileSystemHandle) :
  filter (passes f_none) xs = [].
Proof. induction xs; [reflexivity | assumption]. Qed.

(** At the ceiling every entry that passes the filter is a leaf. *)
Lemma _tree_at_ceiling (k : nat) (type : FilterType) (d : Z) (cd : FileSystemHandle) :
  _tree enumerate_tree (S k) type d d cd
  = Some (map leaf (filter (passes type) (values cd))).
Proof.
  cbn [_tree enumerate_tree obind].
  destruct (is_none type) eqn:Hnone.
  - destruct type; try discriminate. now rewrite filter_none.
  - rewrite _filterEntry_spec. apply for_each_leaves.
    intros x _. now rewrite Z.eqb_refl, orb_true_r.
Qed.

(** X6: with the default depth, or depth 1, the listings are one level
    deep: names gives the names of the direct children that pass the
    filter, in host order, and list their wrappers, those refused by the
    permission check left out. *)
Theorem listing_is_one_level_by_default :
  forall (q r : FileSystemHandle -> PermissionMode -> PermissionState)
         (this : WebFsDirectoryHandle) (file dir : option bool) (k : nat),
    let type := toFilterType (default true file) (default true dir) in
    let kept := filter (passes type) (values (_handle this)) in
    names enumerate_tree (S k) this (mkListOptions file dir None)
      = Some (map name kept)
    /\ names enumerate_tree (S k) this (mkListOptions file dir (Some 1%Z))
       = Some (map name kept)
    /\ list_ q r enumerate_tree (S k) this (mkListOptions file dir None)
       = Some (map wrapper (filter (fun h => _verifyPermission q r h read) kept)).
Proof.
  intros q r this file dir k type kept.
  assert (Hempty : negb (default true file) && negb (default true dir) = true ->
                   kept = []).
  { intros H. unfold kept, type, toFilterType.
    destruct (default true file), (default true dir); try discriminate.
    apply filter_none. }
  unfold names, list_.
  cbn [opt_file opt_dir opt_depth default].
  fold type.
  destruct (negb (default true file) && negb (default true dir)) eqn:Hnone.
  - rewrite (Hempty eq_refl). repeat split.
  - rewrite !_tree_at_ceiling. cbn [obind]. fold kept.
    rewrite _flat_leaves, list_entries_wrapped. repeat split.
Qed.

Lemma for_each_flat_map (A B C : Type) (f : A -> option B)
    (g : B -> Datatypes.list C) (k : A -> Datatypes.list C) (xs : Datatypes.list A) :
  forall ys,
    for_each f xs = Some ys ->
    (forall x y, In x xs -> f x = Some y -> g y = k x) ->
    flat_map g ys = flat_map k xs.
Proof.
  induction xs as [|x xs IH]; intros ys Hrun Hpoint; cbn in Hrun.
  - now injection Hrun as <-.
  - destruct (f x) as [y|] eqn:Hfx; [|discriminate].
    destruct (for_each f xs) as [zs|] eqn:Hrest; [|discriminate].
    cbn in Hrun. injection Hrun as <-. cbn [flat_map].
    rewrite (Hpoint x y (or_introl eq_refl) Hfx).
    f_equal. apply IH; [reflexivity|]. intros x' y' Hx'. apply Hpoint. now right.
Qed.

Lemma handles_of_descendants (cd : FileSystemHandle) :
  map snd (descendants cd)
  = flat_map (fun d => d :: map snd (descendants d)) (values cd).
Proof.
  rewrite descendants_unfold.
  induction (values cd) as [|d ds IH]; [reflexivity|].
  cbn [flat_map]. rewrite map_app, IH. cbn [map snd app].
  now rewrite map_map.
Qed.

Lemma file_has_no_descendants (h : FileSystemHandle) :
  kind h = kind_file -> descendants h = [].
Proof.
  intros Hk. rewrite descendants_unfold, (file_has_no_values h Hk). reflexivity.
Qed.

Lemma directory_has_height (h : FileSystemHandle) :
  kind h = kind_directory -> 1 <= height (h_ent h).
Proof.
  unfold kind. destruct (h_ent h); [discriminate | cbn; lia].
Qed.

Lemma _filterEntry_all (xs : Datatypes.list FileSystemHandle) :
  _filterEntry f_all xs = xs.
Proof. cbn. induction xs as [|x xs IH]; cbn; [reflexivity | now rewrite IH]. Qed.

(** With the all filter the builder materialises the whole tree when the
    ceiling is out of reach: below the counter, or beyond the height. *)
Lemma _tree_materialises_everything (fuel : nat) :
  forall (maxDepth depth : Z) (cd : FileSystemHandle)
         (out : Datatypes.list WebFsTreeResult),
    _tree enumerate_tree fuel f_all maxDepth depth cd = Some out ->
    (maxDepth < depth \/ depth + Z.of_nat (height (h_ent cd)) - 1 <= maxDepth)%Z ->
    _flat out = map snd (descendants cd).
Proof.
  induction fuel as [|fuel IH]; intros maxDepth depth cd out Hrun Hfar;
    [discriminate|].
  cbn [_tree is_none enumerate_tree obind] in Hrun.
  rewrite _filterEntry_all in Hrun.
  unfold _flat. rewrite handles_of_descendants.
  apply (for_each_flat_map _ _ _ _ _ _ _ _ Hrun).
  intros entry t Hin Hbuilt.
  pose proof (height_of_value cd entry Hin) as Hlower.
  destruct (Kind_eqb (kind entry) kind_file) eqn:Hfile; cbn [orb] in Hbuilt.
  - injection Hbuilt as <-. apply Kind_eqb_eq in Hfile.
    rewrite file_has_no_descendants; [reflexivity | exact Hfile].
  - assert (Hk : kind entry = kind_directory).
    { destruct (kind entry); [discriminate | reflexivity]. }
    pose proof (directory_has_height entry Hk) as Hhigh.
    destruct (Z.eqb_spec depth maxDepth) as [Heq|Hne]; [lia|].
    destruct (_tree enumerate_tree fuel f_all maxDepth (depth + 1) entry)
      as [tre|] eqn:Htre; [|discriminate].
    cbn in Hbuilt. injection Hbuilt as <-. cbn [_flat_node].
    f_equal. apply (IH _ _ _ _ Htre). lia.
Qed.

(** X7: names lists everything below the directory, each directory before
    its contents and siblings in host order, as soon as the depth asked
    for is at least the height of the tree; it does the same for a depth
    below 1, which the depth counter, starting at 1, never meets. *)
Theorem names_lists_the_whole_tree :
  forall (this : WebFsDirectoryHandle) (depth : Z) (k : nat),
    (depth < 1 \/ Z.of_nat (height (h_ent (_handle this))) <= depth)%Z ->
    names enumerate_tree (enough (_handle this) + k) this
          (mkListOptions None None (Some depth))
    = Some (map (fun sh => name (snd sh)) (descendants (_handle this))).
Proof.
  intros this depth k Hdepth. unfold names.
  cbn [opt_file opt_dir opt_depth default negb andb toFilterType].
  destruct (_tree_returns (enough (_handle this) + k) f_all depth 1%Z (_handle this))
    as (out & Hout); [unfold enough; lia|].
  rewrite Hout. cbn [obind].
  rewrite (_tree_materialises_everything _ _ _ _ _ Hout) by lia.
  now rewrite map_map.
Qed.

Lemma names_lists_the_whole_tree_witness :
  names enumerate_tree 5 (Fixtures.root_of Fixtures.sources)
        (mkListOptions None None (Some 0%Z))
  = Some ["src"; "a.ts"; "lib"; "b.ts"; "c.md"; "a.ts"].
Proof.
  apply (names_lists_the_whole_tree (Fixtures.root_of Fixtures.sources) 0%Z 0).
  left. lia.
Defined.

(** *** The listings agree with the tree, and the rendering with both *)

Lemma webfs_name_wrapper (h : FileSystemHandle) : webfs_name (wrapper h) = name h.
Proof. unfold wrapper. now destruct (Kind_eqb (kind h) kind_file). Qed.

(** X8: names and list are the flattening of tree: for the same options,
    whenever tree returns, names returns the names of its nodes in
    pre-order and list their wrappers, the entries refused by the
    permission check left out; so the names of what list returns are what
    names returns when nothing is refused. *)
Theorem listings_flatten_the_tree :
  forall (q r : FileSystemHandle -> PermissionMode -> PermissionState)
         (enumerate : FileSystemHandle -> option (Datatypes.list FileSystemHandle))
         (fuel : nat) (this : WebFsDirectoryHandle) (options : WebFsEntryListOptions)
         (t : WebFsTreeResult),
    tree enumerate fuel this options = Some t ->
    names enumerate fuel this options = Some (map name (_flat (children_of t)))
    /\ list_ q r enumerate fuel this options
       = Some (map wrapper (filter (fun h => _verifyPermission q r h read)
                                   (_flat (children_of t))))
    /\ ((forall h, _verifyPermission q r h read = true) ->
        option_map (map webfs_name) (list_ q r enumerate fuel this options)
        = names enumerate fuel this options).
Proof.
  intros q r enumerate fuel this options t Htree.
  unfold tree in Htree. unfold names, list_.
  destruct (_tree enumerate fuel _ _ 1 (_handle this)) as [ts|] eqn:Hts;
    [|discriminate].
  cbn [obind] in Htree. injection Htree as <-. cbn [children_of children default obind].
  assert (Hnone : negb (default true (opt_file options))
                  && negb (default true (opt_dir options)) = true -> ts = []).
  { intros H. unfold toFilterType in Hts.
    destruct (default true (opt_file options)), (default true (opt_dir options));
      try discriminate.
    destruct fuel; [discriminate|]. cbn in Hts. now injection Hts. }
  destruct (negb (default true (opt_file options))
            && negb (default true (opt_dir options))) eqn:Hflags.
  - rewrite (Hnone eq_refl). repeat split.
  - rewrite list_entries_wrapped. repeat split.
    intros Hgrant. cbn [option_map]. f_equal.
    rewrite filter_all by (apply forallb_forall; intros; apply Hgrant).
    rewrite map_map. apply map_ext. intros h. apply webfs_name_wrapper.
Qed.

Lemma listings_flatten_the_tree_witness :
  names enumerate_tree 3 (Fixtures.root_of Fixtures.two_level)
        (mkListOptions None None (Some 2%Z))
  = Some ["a.txt"; "sub"; "b.txt"]
  /\ option_map (map webfs_name)
       (list_ (Fixtures.always granted) (Fixtures.always granted) enumerate_tree 3
              (Fixtures.root_of Fixtures.two_level)
              (mkListOptions None None (Some 2%Z)))
     = Some ["a.txt"; "sub"; "b.txt"].
Proof.
  destruct (listings_flatten_the_tree (Fixtures.always granted) (Fixtures.always granted)
              enumerate_tree 3 (Fixtures.root_of Fixtures.two_level)
              (mkListOptions None None (Some 2%Z)) _ eq_refl)
    as (Hnames & _ & Hlist).
  split; [exact Hnames|].
  rewrite (Hlist (fun h => eq_refl)). exact Hnames.
Defined.

Lemma shows_prefixed (p line : string) (h : FileSystemHandle) :
  shows line h -> shows (p +++ " " +++ line) h.
Proof.
  intros (pre & ->). exists (p +++ " " +++ pre). now rewrite !append_assoc3.
Qed.

Lemma shows_file (p : string) (h : FileSystemHandle) :
  Kind_eqb (kind h) kind_file = true -> shows (p +++ " " +++ name h) h.
Proof.
  intros Hk. exists (p +++ " "). unfold label. rewrite Hk. now rewrite append_assoc3.
Qed.

Lemma shows_directory (p : string) (h : FileSystemHandle) :
  Kind_eqb (kind h) kind_file = false -> shows (p +++ " " +++ name h +++ "/") h.
Proof.
  intros Hk. exists (p +++ " "). unfold label. rewrite Hk. now rewrite append_assoc3.
Qed.

Lemma shows_indented (G : Z -> string) (lines : Datatypes.list string)
    (hs : Datatypes.list FileSystemHandle) :
  Forall2 shows lines hs ->
  forall idxs : Datatypes.list Z,
    List.length idxs = List.length lines ->
    Forall2 shows
      (map (fun il : Z * string => let (i, line) := il in G i +++ " " +++ line)
           (combine idxs lines))
      hs.
Proof.
  induction 1 as [|line h lines hs Hline _ IH]; intros idxs Hlen.
  - destruct idxs; constructor.
  - destruct idxs as [|i idxs]; [discriminate|]. cbn.
    constructor; [now apply shows_prefixed | apply IH; now injection Hlen].
Qed.

Lemma entries_length (A : Type) (xs : Datatypes.list A) :
  List.length (map Z.of_nat (seq 0 (List.length xs))) = List.length xs.
Proof. now rewrite length_map, length_seq. Qed.

(** The two loops, over the entries and over the entries with their
    indices, run side by side. *)
Lemma loops_side_by_side
    (ftree : FileSystemHandle -> option WebFsTreeResult)
    (fstr : Z * FileSystemHandle -> option (Datatypes.list string))
    (es : Datatypes.list FileSystemHandle) :
  forall (idxs : Datatypes.list Z) (ts : Datatypes.list WebFsTreeResult),
    for_each ftree es = Some ts ->
    List.length idxs = List.length es ->
    (forall i e t, In e es -> ftree e = Some t ->
       exists ls, fstr (i, e) = Some ls /\ Forall2 shows ls (_flat_node t)) ->
    exists lss,
      for_each fstr (combine idxs es) = Some lss
      /\ Forall2 shows (List.concat lss) (flat_map _flat_node ts).
Proof.
  induction es as [|e es IH]; intros idxs ts Hrun Hlen Hpoint; cbn in Hrun.
  - injection Hrun as <-. destruct idxs; [|discriminate].
    exists []. split; [reflexivity | constructor].
  - destruct idxs as [|i idxs]; [discriminate|].
    destruct (ftree e) as [t|] eqn:Ht; [|discriminate].
    destruct (for_each ftree es) as [ts'|] eqn:Hrest; [|discriminate].
    cbn in Hrun. injection Hrun as <-.
    destruct (Hpoint i e t (or_introl eq_refl) Ht) as (ls & Hls & Hshow).
    destruct (IH idxs ts' eq_refl) as (lss & Hlss & Hshows).
    { now injection Hlen. }
    { intros i' e' t' He'. apply Hpoint. now right. }
    exists (ls :: lss). cbn [combine for_each]. rewrite Hls, Hlss. cbn.
    split; [reflexivity | now apply Forall2_app].
Qed.

Lemma _toString_follows_tree (fuel : nat) :
  forall (type : FilterType) (maxDepth depth : Z) (cd : FileSystemHandle)
         (out : Datatypes.list WebFsTreeResult),
    _tree enumerate_tree fuel type maxDepth depth cd = Some out ->
    exists lines,
      _toString enumerate_tree fuel type maxDepth depth cd
      = Some ((name cd +++ "/") :: lines)
      /\ Forall2 shows lines (_flat out).
Proof.
  induction fuel as [|fuel IH]; intros type maxDepth depth cd out Hrun; [discriminate|].
  cbn [_tree enumerate_tree obind] in Hrun. cbn [_toString enumerate_tree obind].
  destruct (is_none type).
  { injection Hrun as <-. exists []. split; [reflexivity | constructor]. }
  destruct (loops_side_by_side _
              (fun ie : Z * FileSystemHandle =>
                 let (index, entry) := ie in
                 let prefix :=
                   if Z.ltb index (Z.of_nat (List.length (_filterEntry type (values cd))) - 1)
                   then "├─" else "└─" in
                 if Kind_eqb (kind entry) kind_file then
                   Some [prefix +++ " " +++ name entry]
                 else if Z.eqb depth maxDepth then
                   Some [prefix +++ " " +++ name entry +++ "/"]
                 else
                   innerLines <-? _toString enumerate_tree fuel type maxDepth (depth + 1) entry ;;
                   Some (map (fun il : Z * string =>
                                let (i, line) := il in
                                let prefix :=
                                  if Z.eqb index
                                       (Z.of_nat (List.length (_filterEntry type (values cd))) - 1)
                                  then (if Z.eqb i 0 then "└─" else "  ")
                                  else (if Z.eqb i 0 then "├─" else "│ ") in
                                prefix +++ " " +++ line)
                             (Js.entries innerLines)))
              _ (map Z.of_nat (seq 0 (List.length (_filterEntry type (values cd)))))
              out Hrun (entries_length _ _)) as (lss & Hlss & Hshows).
  - intros i e t _ Hbuilt.
    destruct (Kind_eqb (kind e) kind_file) eqn:Hfile; cbn [orb] in Hbuilt.
    + injection Hbuilt as <-. eexists. split; [reflexivity|].
      cbn [_flat_node]. constructor; [now apply shows_file | constructor].
    + destruct (Z.eqb depth maxDepth).
      * injection Hbuilt as <-. eexists. split; [reflexivity|].
        cbn [_flat_node]. constructor; [now apply shows_directory | constructor].
      * destruct (_tree enumerate_tree fuel type maxDepth (depth + 1) e)
          as [tre|] eqn:Htre; [|discriminate].
        cbn in Hbuilt. injection Hbuilt as <-.
        destruct (IH _ _ _ _ _ Htre) as (inner & -> & Hinner).
        cbn [obind]. eexists. split; [reflexivity|].
        cbn [_flat_node]. unfold Js.entries.
        apply (shows_indented
                 (fun i0 => if Z.eqb i (Z.of_nat (List.length (_filterEntry type (values cd))) - 1)
                            then (if Z.eqb i0 0 then "└─" else "  ")
                            else (if Z.eqb i0 0 then "├─" else "│ "))).
        -- constructor; [|exact Hinner].
           exists "". unfold label. now rewrite Hfile.
        -- apply entries_length.
  - unfold Js.entries in *. cbv zeta in Hlss. cbv zeta. rewrite Hlss. cbn [obind].
    exists (List.concat lss). split; [reflexivity | exact Hshows].
Qed.

(** X9: the rendering follows the tree: for the same filter and depth,
    the lines are the root line, the name of the directory and a slash,
    and then one line for each node of the tree, in the order of its
    flattening, that ends with the name of the entry, followed by a slash
    when the entry is a directory. *)
Theorem rendering_follows_the_tree :
  forall (type : FilterType) (maxDepth : Z) (cd : FileSystemHandle) (k : nat),
    exists out lines,
      _tree enumerate_tree (enough cd + k) type maxDepth 1 cd = Some out
      /\ _toString enumerate_tree (enough cd + k) type maxDepth 1 cd
         = Some ((name cd +++ "/") :: lines)
      /\ Forall2 shows lines (_flat out)
      /\ List.length lines = List.length (_flat out).
Proof.
  intros type maxDepth cd k.
  destruct (_tree_returns (enough cd + k) type maxDepth 1%Z cd) as (out & Hout);
    [unfold enough; lia|].
  destruct (_toString_follows_tree _ _ _ _ _ _ Hout) as (lines & Hlines & Hshows).
  exists out, lines. repeat split; try assumption.
  exact (Forall2_length Hshows).
Qed.

(** *** A pattern of one segment *)

Lemma filter_each_pure (A : Type) (f : A -> option bool) (g : A -> bool)
    (xs : Datatypes.list A) :
  (forall x, f x = Some (g x)) -> filter_each f xs = Some (filter g xs).
Proof.
  intros Hf. induction xs as [|x xs IH]; [reflexivity|].
  cbn. rewrite Hf, IH. cbn. now destruct (g x).
Qed.

(** X10: a non-empty pattern without slash is not recursive: glob
    enumerates the directory itself, once, and returns its direct files
    whose name matches the pattern, in host order, those refused by the
    permission check left out. *)
Theorem glob_of_one_segment_is_flat :
  forall (isMatch : string -> string -> bool)
         (q r : FileSystemHandle -> PermissionMode -> PermissionState)
         (this : WebFsDirectoryHandle) (P : string) (k : nat),
    P <> "" ->
    Js.contains "/"%char P = false ->
    glob isMatch q r enumerate_tree (S k) this P
    = Some (map mkWebFsFileHandle
              (filter (fun h => _verifyPermission q r h read)
                      (filter (fun h => isMatch (name h) P)
                              (direct_files (_handle this))))).
Proof.
  intros isMatch q r this P k Hne Hflat. unfold glob.
  destruct (String.eqb_spec P "") as [->|_]; [contradiction|].
  rewrite (split_without_separator "/"%char P Hflat).
  cbn [_glob enumerate_tree obind].
  change (Z.eqb (Z.of_nat 0) (Z.of_nat (List.length [P]) - 1)) with true.
  cbv iota. cbn [Js.join].
  rewrite (filter_each_pure _ _ (fun h => isMatch (name h) P)).
  - cbn [obind]. rewrite _filterEntry_spec. now rewrite defined_wrapped.
  - intros x. cbn. now destruct (String.eqb_spec P "").
Qed.

Lemma glob_of_one_segment_is_flat_witness :
  glob Micromatch.isMatch (Fixtures.always granted) (Fixtures.always granted)
       enumerate_tree 1 (Fixtures.root_of Fixtures.sources) "*.ts"
  = Some [file_handle_at ["a.ts"]].
Proof.
  apply (glob_of_one_segment_is_flat Micromatch.isMatch
           (Fixtures.always granted) (Fixtures.always granted)
           (Fixtures.root_of Fixtures.sources) "*.ts" 0);
    [discriminate | reflexivity].
Defined.

(** *** The host tree under lookups and updates *)

Lemma find_child_name (n : string) (cs : Datatypes.list Entry) (c : Entry) :
  find_child n cs = Some c -> entry_name c = n.
Proof.
  unfold find_child. intros H. apply find_some in H as [_ H].
  now apply String.eqb_eq.
Qed.

Lemma lookup_snoc (loc : Datatypes.list string) (n : string) :
  forall w : Entry,
    lookup (loc ++ [n]) w
    = match lookup loc w with
      | Some e => find_child n (entry_children e)
      | None => None
      end.
Proof.
  induction loc as [|a loc IH]; intros w; cbn [app lookup].
  - now destruct (find_child n (entry_children w)).
  - destruct (find_child a (entry_children w)); [apply IH | reflexivity].
Qed.

Lemma update_name (loc : Datatypes.list string)
    (f : Datatypes.list Entry -> Datatypes.list Entry) (e : Entry) :
  entry_name (update loc f e) = entry_name e.
Proof. destruct e, loc; reflexivity. Qed.

Lemma update_kind (loc : Datatypes.list string)
    (f : Datatypes.list Entry -> Datatypes.list Entry) (e : Entry) :
  entry_kind (update loc f e) = entry_kind e.
Proof. destruct e, loc; reflexivity. Qed.

Lemma find_child_replace (a : string) (g : Entry -> Entry) (cs : Datatypes.list Entry) :
  (forall c, entry_name (g c) = entry_name c) ->
  find_child a (replace_child a g cs) = option_map g (find_child a cs).
Proof.
  intros Hg. unfold find_child.
  induction cs as [|c cs IH]; [reflexivity|]. cbn [replace_child find].
  destruct (String.eqb (entry_name c) a) eqn:Hc; cbn [find].
  - now rewrite Hg, Hc.
  - now rewrite Hc.
Qed.

(** A change below a position leaves the entry at that position in place,
    changed below. *)
Lemma lookup_update_prefix (prefix : Datatypes.list string) :
  forall (rest : Datatypes.list string)
         (f : Datatypes.list Entry -> Datatypes.list Entry) (w : Entry),
    lookup prefix (update (prefix ++ rest) f w)
    = option_map (update rest f) (lookup prefix w).
Proof.
  induction prefix as [|a prefix IH]; intros rest f w; [reflexivity|].
  destruct w as [n|n cs]; [reflexivity|].
  cbn [app update lookup entry_children].
  rewrite find_child_replace by (intros; apply update_name).
  destruct (find_child a cs) as [c|]; [apply IH | reflexivity].
Qed.

Lemma lookup_update_here (loc : Datatypes.list string)
    (f : Datatypes.list Entry -> Datatypes.list Entry) (w : Entry)
    (n : string) (cs : Datatypes.list Entry) :
  lookup loc w = Some (Directory n cs) ->
  lookup loc (update loc f w) = Some (Directory n (f cs)).
Proof.
  intros H. pose proof (lookup_update_prefix loc [] f w) as Hp.
  rewrite app_nil_r, H in Hp. exact Hp.
Qed.

Lemma find_child_app_new (n : string) (cs : Datatypes.list Entry) (c : Entry) :
  find_child n cs = None -> entry_name c = n ->
  find_child n (cs ++ [c]) = Some c.
Proof.
  unfold find_child. intros Hnone Hname.
  induction cs as [|c0 cs IH]; cbn [app find] in *.
  - now rewrite Hname, String.eqb_refl.
  - destruct (String.eqb (entry_name c0) n); [discriminate | now apply IH].
Qed.

Lemma remove_child_app_new (n : string) (cs : Datatypes.list Entry) (c : Entry) :
  find_child n cs = None -> entry_name c = n ->
  remove_child n (cs ++ [c]) = cs.
Proof.
  unfold find_child. intros Hnone Hname.
  induction cs as [|c0 cs IH]; cbn [app find remove_child] in *.
  - now rewrite Hname, String.eqb_refl.
  - destruct (String.eqb (entry_name c0) n); [discriminate|].
    now rewrite IH.
Qed.

(** *** One host lookup, and the walk along a chain *)

(** What a successful [getDirectoryHandle] or [getFileHandle] tells. *)
Lemma get_child_inv (want : Kind) (cd : FileSystemHandle) (n : string)
    (create : bool) (w w' : World) (h : FileSystemHandle) :
  get_child want cd n create w = (Returned h, w') ->
  valid_name n = true
  /\ h_loc h = h_loc cd ++ [n]
  /\ lookup (h_loc h) w' = Some (h_ent h)
  /\ entry_kind (h_ent h) = want
  /\ (w' = w \/ exists f, w' = update (h_loc cd) f w).
Proof.
  unfold get_child.
  destruct (valid_name n) eqn:Hv; cbn [negb]; [|discriminate].
  destruct (lookup (h_loc cd) w) as [[m|m cs]|] eqn:Hcd; try discriminate.
  destruct (find_child n cs) as [c|] eqn:Hc.
  - destruct (Kind_eqb (entry_kind c) want) eqn:Hk; [|discriminate].
    intros [= <- <-]. pose proof (find_child_name _ _ _ Hc) as Hn.
    cbn [child_handle h_loc h_ent]. rewrite Hn.
    repeat split; auto.
    + now rewrite lookup_snoc, Hcd.
    + now apply Kind_eqb_eq.
  - destruct create; [|discriminate].
    intros [= <- <-]. cbn [child_handle h_loc h_ent].
    assert (Hn : entry_name (match want with
                             | kind_file => File n
                             | kind_directory => Directory n []
                             end) = n) by now destruct want.
    rewrite Hn. repeat split; eauto.
    + rewrite lookup_snoc, (lookup_update_here _ _ _ _ _ Hcd).
      cbn [entry_children]. now apply find_child_app_new.
    + now destruct want.
Qed.

(** An entry of the wanted kind that is there is found, whatever the
    [create] flag, and nothing changes. *)
Lemma get_child_found (want : Kind) (h0 : FileSystemHandle) (n : string)
    (create : bool) (w : World) (c : Entry) :
  valid_name n = true ->
  lookup (h_loc h0 ++ [n]) w = Some c ->
  entry_kind c = want ->
  get_child want h0 n create w = (Returned (mkHandle (h_loc h0 ++ [n]) c), w).
Proof.
  intros Hv Hc Hk. unfold get_child. rewrite Hv. cbn [negb].
  rewrite lookup_snoc in Hc.
  destruct (lookup (h_loc h0) w) as [[m|m cs]|]; try discriminate.
  cbn [entry_children] in Hc. rewrite Hc.
  rewrite (proj2 (Kind_eqb_eq _ _) Hk).
  unfold child_handle. now rewrite (find_child_name _ _ _ Hc).
Qed.

(** The walk keeps what lies on the way to its starting point. *)
Lemma walk_keeps_the_way (names : Datatypes.list string) :
  forall (h h' : FileSystemHandle) (create : bool) (w w' : World),
    walk h names create w = (Returned h', w') ->
    forall (prefix rest : Datatypes.list string) (e : Entry),
      h_loc h = prefix ++ rest ->
      lookup prefix w = Some e ->
      exists e', lookup prefix w' = Some e'
                 /\ entry_kind e' = entry_kind e /\ entry_name e' = entry_name e.
Proof.
  induction names as [|n names IH]; intros h h' create w w' Hwalk prefix rest e Hloc He.
  - cbn in Hwalk. injection Hwalk as <- <-. eauto.
  - cbn [walk] in Hwalk. unfold bind, getDirectoryHandle in Hwalk.
    destruct (get_child kind_directory h n create w) as [[h1|x] w1] eqn:Hstep;
      [|discriminate].
    destruct (get_child_inv _ _ _ _ _ _ _ Hstep) as (_ & Hloc1 & _ & _ & Hw1).
    assert (He1 : exists e1, lookup prefix w1 = Some e1
                             /\ entry_kind e1 = entry_kind e
                             /\ entry_name e1 = entry_name e).
    { destruct Hw1 as [->|(f & ->)]; [eauto|].
      rewrite Hloc, lookup_update_prefix, He. cbn [option_map].
      eexists. split; [reflexivity|]. split; [apply update_kind | apply update_name]. }
    destruct He1 as (e1 & He1 & Hk1 & Hn1).
    destruct (IH _ _ _ _ _ Hwalk prefix (rest ++ [n]) e1) as (e' & He' & Hk' & Hn').
    + now rewrite Hloc1, Hloc, app_assoc.
    + exact He1.
    + exists e'. repeat split; congruence.
Qed.

(** After a successful walk the chain exists, and the handle returned is
    the directory at its end. *)
Lemma walk_post (names : Datatypes.list string) :
  forall (h h' : FileSystemHandle) (create : bool) (w w' : World),
    walk h names create w = (Returned h', w') ->
    reaches w' (h_loc h) names = true
    /\ (names <> [] ->
        h_loc h' = h_loc h ++ names /\ lookup (h_loc h') w' = Some (h_ent h')).
Proof.
  induction names as [|n names IH]; intros h h' create w w' Hwalk.
  - split; [reflexivity | congruence].
  - cbn [walk] in Hwalk. unfold bind, getDirectoryHandle in Hwalk.
    destruct (get_child kind_directory h n create w) as [[h1|x] w1] eqn:Hstep;
      [|discriminate].
    destruct (get_child_inv _ _ _ _ _ _ _ Hstep) as (Hv & Hloc1 & Hh1 & Hk1 & _).
    destruct (IH _ _ _ _ _ Hwalk) as [Hreach Hend].
    destruct (walk_keeps_the_way _ _ _ _ _ _ Hwalk (h_loc h1) [] (h_ent h1))
      as (e' & He' & Hk' & _); [now rewrite app_nil_r | exact Hh1 |].
    split.
    + cbn [reaches]. rewrite Hv, <- Hloc1, He'. cbn [andb].
      destruct e' as [m|m cs]; [cbn in Hk'; congruence | exact Hreach].
    + intros _. destruct names as [|n2 names].
      * cbn in Hwalk. injection Hwalk as <- <-. now split.
      * destruct Hend as [Hl Hlook]; [discriminate|].
        split; [|exact Hlook]. rewrite Hl, Hloc1, <- app_assoc. reflexivity.
Qed.

(** Along a chain that exists the walk succeeds, whatever the [create]
    flag, and changes nothing. *)
Lemma walk_found (names : Datatypes.list string) :
  forall (h0 : FileSystemHandle) (create : bool) (w : World),
    reaches w (h_loc h0) names = true ->
    names <> [] ->
    exists e,
      lookup (h_loc h0 ++ names) w = Some e
      /\ walk h0 names create w = (Returned (mkHandle (h_loc h0 ++ names) e), w).
Proof.
  induction names as [|n names IH]; intros h0 create w Hreach Hne; [contradiction|].
  cbn [reaches] in Hreach. apply andb_true_iff in Hreach as [Hv Hreach].
  destruct (lookup (h_loc h0 ++ [n]) w) as [[m|m cs]|] eqn:Hn; try discriminate.
  cbn [walk]. unfold bind, getDirectoryHandle.
  rewrite (get_child_found kind_directory h0 n create w (Directory m cs) Hv Hn eq_refl).
  destruct names as [|n2 names].
  - exists (Directory m cs). split; [exact Hn | reflexivity].
  - destruct (IH (mkHandle (h_loc h0 ++ [n]) (Directory m cs)) create w Hreach)
      as (e & He & Hwalk); [discriminate|].
    cbn [h_loc] in He, Hwalk. rewrite <- app_assoc in He, Hwalk.
    exists e. split; [exact He | exact Hwalk].
Qed.



(** *** The directory-chain walker and the operations on a path *)

(** X11: without the create flag the walker only reads: it leaves the
    host tree as it is, it succeeds exactly when every name is a valid
    single segment and names an existing directory inside the one before,
    and the handle it returns is the directory at the end of the chain. *)
Theorem walker_follows_existing_chains :
  forall (this : WebFsDirectoryHandle) (directoryNames : Datatypes.list string)
         (w : World),
    snd (_dirByPath this directoryNames None w) = w
    /\ ((exists h, fst (_dirByPath this directoryNames None w) = Returned h)
        <-> reaches w (h_loc (_handle this)) directoryNames = true)
    /\ forall h,
         fst (_dirByPath this directoryNames None w) = Returned h ->
         directoryNames <> [] ->
         h_loc h = h_loc (_handle this) ++ directoryNames
         /\ lookup (h_loc h) w = Some (h_ent h).
Proof.
  intros this directoryNames w. unfold _dirByPath. cbn [default].
  pose proof (walk_keeps_world directoryNames (_handle this) w) as Hsame.
  destruct (walk (_handle this) directoryNames false w) as [[h|e] w'] eqn:Hwalk;
    cbn [fst snd] in *; subst w'.
  - destruct (walk_post _ _ _ _ _ _ Hwalk) as [Hreach Hend].
    split; [reflexivity|]. split; [split; eauto|].
    intros h0 [= <-]. exact Hend.
  - split; [reflexivity|]. split; [|discriminate]. split.
    + intros (h & Hh). discriminate.
    + intros Hreach. destruct directoryNames as [|n names]; [discriminate|].
      destruct (walk_found (n :: names) (_handle this) false w Hreach)
        as (e0 & _ & Hfound); [discriminate|].
      rewrite Hfound in Hwalk. discriminate.
Qed.



Lemma resolved_names_nonempty (p : string) :
  Js.slice1 (Js.split Path.sep (Path.resolve p)) <> [].
Proof.
  unfold Path.resolve, Path.sep.
  change ("/" +++ ?x) with (String "/" x).
  cbn [Js.split Js.slice1 tl]. rewrite Ascii.eqb_refl. cbn [tl].
  apply split_not_nil.
Qed.





Lemma walk_loc (names : Datatypes.list string) (h h' : FileSystemHandle)
    (create : bool) (w w' : World) :
  walk h names create w = (Returned h', w') ->
  h_loc h' = h_loc h ++ names.
Proof.
  intros Hwalk. destruct names as [|n names].
  - cbn in Hwalk. injection Hwalk as <- _. now rewrite app_nil_r.
  - destruct (walk_post _ _ _ _ _ _ Hwalk) as [_ Hend].
    now destruct Hend as [Hloc _].
Qed.

Lemma walk_kind (names : Datatypes.list string) :
  forall (h h' : FileSystemHandle) (create : bool) (w w' : World),
    walk h names create w = (Returned h', w') ->
    names <> [] ->
    kind h' = kind_directory.
Proof.
  induction names as [|n names IH]; intros h h' create w w' Hwalk Hne;
    [contradiction|].
  cbn [walk] in Hwalk. unfold bind, getDirectoryHandle in Hwalk.
  destruct (get_child kind_directory h n create w) as [[h1|e] w1] eqn:Hget;
    [|discriminate].
  destruct names as [|n2 names].
  - cbn in Hwalk. injection Hwalk as <- _.
    now destruct (get_child_inv _ _ _ _ _ _ _ Hget) as (_ & _ & _ & Hk & _).
  - eapply IH; [exact Hwalk|discriminate].
Qed.


Lemma get_child_by_position (want : Kind) (a b : FileSystemHandle) (n : string)
    (create : bool) (w : World) :
  h_loc a = h_loc b ->
  get_child want a n create w = get_child want b n create w.
Proof. intros Hloc. unfold get_child. now rewrite Hloc. Qed.




Lemma replace_child_fixed (s : string) (g : Entry -> Entry)
    (cs : Datatypes.list Entry) :
  (forall c, find_child s cs = Some c -> g c = c) ->
  replace_child s g cs = cs.
Proof.
  unfold find_child. induction cs as [|a cs IH]; intros Hg; [reflexivity|].
  cbn [replace_child find] in *.
  destruct (String.eqb (entry_name a) s).
  - now rewrite Hg.
  - now rewrite IH.
Qed.

Lemma update_fixed (loc : Datatypes.list string) :
  forall (f : Datatypes.list Entry -> Datatypes.list Entry) (w : Entry),
    (forall m cs, lookup loc w = Some (Directory m cs) -> f cs = cs) ->
    update loc f w = w.
Proof.
  induction loc as [|s loc IH]; intros f [n|n cs] Hf; cbn [update];
    try reflexivity; f_equal.
  - now apply (Hf n).
  - apply replace_child_fixed. intros c Hc. apply IH.
    intros m cs' Hl. apply (Hf m). cbn [lookup entry_children]. now rewrite Hc.
Qed.

Lemma replace_child_twice (s : string) (g g' : Entry -> Entry)
    (cs : Datatypes.list Entry) :
  (forall c, entry_name (g c) = entry_name c) ->
  replace_child s g' (replace_child s g cs)
  = replace_child s (fun c => g' (g c)) cs.
Proof.
  intros Hg. induction cs as [|a cs IH]; [reflexivity|].
  cbn [replace_child]. destruct (String.eqb (entry_name a) s) eqn:Ea;
    cbn [replace_child].
  - now rewrite Hg, Ea.
  - now rewrite Ea, IH.
Qed.

Lemma replace_child_ext (s : string) (g g' : Entry -> Entry)
    (cs : Datatypes.list Entry) :
  (forall c, g c = g' c) ->
  replace_child s g cs = replace_child s g' cs.
Proof.
  intros Hg. induction cs as [|a cs IH]; [reflexivity|].
  cbn [replace_child]. now rewrite Hg, IH.
Qed.

Lemma update_twice (loc : Datatypes.list string) :
  forall (f g : Datatypes.list Entry -> Datatypes.list Entry) (w : Entry),
    update loc g (update loc f w) = update loc (fun l => g (f l)) w.
Proof.
  induction loc as [|s loc IH]; intros f g [n|n cs]; cbn [update];
    try reflexivity; f_equal.
  rewrite replace_child_twice by (intros c; apply update_name).
  apply replace_child_ext. intros c. apply IH.
Qed.

(** Adding a child under a fresh name and removing that name again gives
    the tree back. *)
Lemma update_add_then_remove (loc : Datatypes.list string) (n : string)
    (c : Entry) (w : World) :
  lookup (loc ++ [n]) w = None ->
  entry_name c = n ->
  update loc (remove_child n) (update loc (fun l => l ++ [c]) w) = w.
Proof.
  intros Hfresh Hname. rewrite update_twice. apply update_fixed.
  intros m cs Hl. apply remove_child_app_new; [|exact Hname].
  rewrite lookup_snoc, Hl in Hfresh. exact Hfresh.
Qed.

(** X16: creating an entry under a fresh single name and removing that
    name gives back the tree there was before, for a file and for a
    directory. *)
Theorem create_then_remove_restores :
  forall (q r : FileSystemHandle -> PermissionMode -> PermissionState)
         (this : WebFsDirectoryHandle) (n : string)
         (mode : option PermissionMode) (w : World),
    valid_name n = true ->
    lookup (h_loc (_handle this) ++ [n]) w = None ->
    (forall f w', createFile q r this n mode w = (Some f, w') ->
                  remove this n w' = (true, w))
    /\ (forall d w', createDir q r this n mode w = (Some d, w') ->
                     remove this n w' = (true, w)).
Proof.
  intros q r this n mode w Hv Hfresh.
  destruct (valid_name_inv _ Hv) as (He & _).
  pose proof Hfresh as Hnone. rewrite lookup_snoc in Hnone.
  assert (forall c, entry_name c = n ->
            lookup (h_loc (_handle this)) w <> None ->
            (match lookup (h_loc (_handle this)) w with
             | Some (Directory _ _) => True | _ => False end) ->
            remove this n (update (h_loc (_handle this)) (fun l => l ++ [c]) w)
            = (true, w)) as Hback.
  { intros c Hc _ Hdir.
    destruct (lookup (h_loc (_handle this)) w) as [[m|m cs]|] eqn:Hl;
      try contradiction.
    cbn [entry_children] in Hnone.
    unfold remove, try_catch. rewrite (resolve_single_segment n Hv).
    cbn [Js.pop last removelast Js.strict_eq]. rewrite He.
    unfold bind, _dirByPath, removeEntry. cbn [default walk ret].
    rewrite Hv. cbn [negb].
    rewrite (lookup_update_here _ _ _ _ _ Hl).
    rewrite (find_child_app_new n cs c Hnone Hc).
    rewrite (update_add_then_remove _ _ _ _ Hfresh Hc).
    destruct (entry_children c); reflexivity. }
  split.
  - intros f w'. unfold createFile, file, try_catch.
    rewrite (resolve_single_segment n Hv).
    cbn [Js.pop last removelast Js.strict_eq Js.to_string]. rewrite He.
    unfold bind, _dirByPath, getFileHandle, get_child.
    cbn [default create_of opt_create walk ret]. rewrite Hv. cbn [negb].
    destruct (lookup (h_loc (_handle this)) w) as [[m|m cs]|] eqn:Hl;
      try discriminate.
    cbn [entry_children] in Hnone. rewrite Hnone.
    intros [= _ <-]. apply Hback; [reflexivity|discriminate|exact I].
  - intros d w'. unfold createDir, dir, try_catch.
    rewrite (resolve_single_segment n Hv).
    cbn [List.length Nat.eqb nth_error Js.strict_eq andb]. rewrite He.
    unfold bind, _dirByPath, getDirectoryHandle.
    cbn [default create_of opt_create walk ret]. unfold bind, getDirectoryHandle, get_child.
    rewrite Hv. cbn [negb].
    destruct (lookup (h_loc (_handle this)) w) as [[m|m cs]|] eqn:Hl;
      try discriminate.
    cbn [entry_children] in Hnone. rewrite Hnone.
    intros [= _ <-]. apply Hback; [reflexivity|discriminate|exact I].
Qed.

Lemma create_then_remove_restores_witness :
  (forall f w',
      createFile (Fixtures.always granted) (Fixtures.always granted)
                 (Fixtures.root_of Fixtures.two_level) "fresh.txt" None
                 Fixtures.two_level = (Some f, w') ->
      remove (Fixtures.root_of Fixtures.two_level) "fresh.txt" w'
      = (true, Fixtures.two_level))
  /\ (forall d w',
         createDir (Fixtures.always granted) (Fixtures.always granted)
                   (Fixtures.root_of Fixtures.two_level) "fresh.txt" None
                   Fixtures.two_level = (Some d, w') ->
         remove (Fixtures.root_of Fixtures.two_level) "fresh.txt" w'
         = (true, Fixtures.two_level)).
Proof.
  exact (create_then_remove_restores (Fixtures.always granted)
           (Fixtures.always granted) (Fixtures.root_of Fixtures.two_level)
           "fresh.txt" None Fixtures.two_level eq_refl eq_refl).
Defined.

Lemma pop_inv (names : Datatypes.list string) :
  names <> [] ->
  exists x ds, Js.pop names = (Some x, ds) /\ names = ds ++ [x].
Proof.
  intros Hne. exists (last names ""), (removelast names). split.
  - destruct names; [contradiction|reflexivity].
  - now apply app_removelast_last.
Qed.

(** X17: what file and dir return is in the tree they leave: the handle
    sits at the position the resolved path names below the wrapped
    directory, the tree has that very entry there, and the entry is a file
    for file and a directory for dir. *)
Theorem returned_handles_are_in_the_tree :
  forall (q r : FileSystemHandle -> PermissionMode -> PermissionState)
         (this : WebFsDirectoryHandle) (p : string)
         (options : option WebFsGetOptions) (w : World),
    (forall f w',
        file q r this p options w = (Some f, w') ->
        h_loc (fh_handle f)
        = h_loc (_handle this) ++ Js.slice1 (Js.split Path.sep (Path.resolve p))
        /\ lookup (h_loc (fh_handle f)) w' = Some (h_ent (fh_handle f))
        /\ kind (fh_handle f) = kind_file)
    /\ (forall d w',
           dir q r this p options w = (Some d, w') ->
           h_loc (_handle d)
           = h_loc (_handle this) ++ Js.slice1 (Js.split Path.sep (Path.resolve p))
           /\ lookup (h_loc (_handle d)) w' = Some (h_ent (_handle d))
           /\ kind (_handle d) = kind_directory).
Proof.
  intros q r this p options w. split.
  - intros f w'. unfold file, try_catch.
    destruct (pop_inv _ (resolved_names_nonempty p)) as (x & ds & -> & ->).
    destruct (Js.strict_eq (Some x) ""); [discriminate|].
    unfold bind, _dirByPath, getFileHandle. cbn [Js.to_string].
    destruct (walk (_handle this) ds _ w) as [[dh|e] w1] eqn:Hwalk; [|discriminate].
    destruct (get_child kind_file dh x _ w1) as [[fh|e] w2] eqn:Hget; [|discriminate].
    cbn [ret]. unfold WebFsFileHandle_create.
    destruct (negb _); [discriminate|]. intros [= <- <-]. cbn [fh_handle].
    destruct (get_child_inv _ _ _ _ _ _ _ Hget) as (_ & Hloc & Hlook & Hk & _).
    rewrite Hloc, (walk_loc _ _ _ _ _ _ Hwalk), <- app_assoc in *.
    repeat split; assumption.
  - intros d w'. unfold dir, try_catch.
    destruct (_ && _); [discriminate|].
    unfold bind, _dirByPath.
    destruct (walk (_handle this) _ _ w) as [[dh|e] w1] eqn:Hwalk; [|discriminate].
    cbn [ret]. unfold WebFsDirectoryHandle_create.
    destruct (negb _); [discriminate|]. intros [= <- <-]. cbn [_handle].
    destruct (walk_post _ _ _ _ _ _ Hwalk) as [_ Hend].
    destruct (Hend (resolved_names_nonempty p)) as [Hloc Hlook].
    repeat split; try assumption.
    exact (walk_kind _ _ _ _ _ _ Hwalk (resolved_names_nonempty p)).
Qed.

Lemma returned_handles_are_in_the_tree_witness :
  exists f w',
    file (Fixtures.always granted) (Fixtures.always granted)
         (Fixtures.root_of Fixtures.two_level) "./sub/../sub/b.txt" None
         Fixtures.two_level = (Some f, w')
    /\ h_loc (fh_handle f) = ["sub"; "b.txt"]
    /\ lookup (h_loc (fh_handle f)) w' = Some (h_ent (fh_handle f))
    /\ kind (fh_handle f) = kind_file.
Proof.
  do 2 eexists. split; [vm_compute; reflexivity|].
  exact (proj1 (returned_handles_are_in_the_tree (Fixtures.always granted)
                  (Fixtures.always granted) (Fixtures.root_of Fixtures.two_level)
                  "./sub/../sub/b.txt" None Fixtures.two_level) _ _ eq_refl).
Defined.

(** *** The tree on any host *)

Lemma for_each_source (A B : Type) (f : A -> option B) (g : B -> A) :
  (forall x y, f x = Some y -> g y = x) ->
  forall xs ys, for_each f xs = Some ys -> map g ys = xs.
Proof.
  intros Hg. induction xs as [|x xs IH]; intros ys Hrun; cbn in Hrun.
  - now injection Hrun as <-.
  - destruct (f x) as [y|] eqn:Hy; cbn in Hrun; [|discriminate].
    destruct (for_each f xs) as [ys'|]; cbn in Hrun; [|discriminate].
    injection Hrun as <-. cbn. now rewrite (Hg _ _ Hy), (IH ys').
Qed.

Lemma all_reflect
    (enumerate : FileSystemHandle -> option (Datatypes.list FileSystemHandle))
    (type : FilterType) (l : Datatypes.list WebFsTreeResult) :
  (forall x, In x l -> reflects enumerate type x) ->
  (fix all (l : Datatypes.list WebFsTreeResult) : Prop :=
     match l with
     | [] => True
     | x :: r => reflects enumerate type x /\ all r
     end) l.
Proof.
  induction l as [|x l IH]; intros Hall; [exact I|].
  split; [apply Hall; now left|apply IH; intros y Hy; apply Hall; now right].
Qed.

Lemma _tree_reflects
    (enumerate : FileSystemHandle -> option (Datatypes.list FileSystemHandle))
    (type : FilterType) (maxDepth : Z) :
  is_none type = false ->
  forall (fuel : nat) (depth : Z) (cd : FileSystemHandle)
         (ts : Datatypes.list WebFsTreeResult),
    _tree enumerate fuel type maxDepth depth cd = Some ts ->
    reflects enumerate type (TreeResult cd (Some ts)).
Proof.
  intros Htype. induction fuel as [|fuel IH]; intros depth cd ts Hrun;
    [discriminate|].
  cbn [_tree] in Hrun. rewrite Htype in Hrun.
  destruct (enumerate cd) as [es|] eqn:Hes; cbn [obind] in Hrun; [|discriminate].
  cbn [reflects]. split.
  - exists es. split; [exact Hes|].
    apply (for_each_source _ _ _ handle) with (2 := Hrun).
    intros x y. destruct (_ || _); [now intros [= <-]|].
    destruct (_tree enumerate fuel type maxDepth (depth + 1) x); cbn [obind];
      [now intros [= <-]|discriminate].
  - apply all_reflect. intros t Ht.
    destruct (for_each_In _ _ _ _ _ _ Hrun Ht) as (x & _ & Hx).
    cbv beta in Hx.
    destruct (_ || _); [injection Hx as <-; exact I|].
    destruct (_tree enumerate fuel type maxDepth (depth + 1) x) as [tre|] eqn:Hsub;
      cbn [obind] in Hx; [|discriminate].
    injection Hx as <-. exact (IH _ _ _ Hsub).
Qed.

(** X19: on any host, well behaved or not, a tree that is returned shows
    what the host answered: with a filter that is not empty, the children
    of the root and of every directory shown with children are the
    filtered enumeration of that directory, in the host's order; so no
    tree is returned when the enumeration of a directory that is shown
    with children has failed. *)
Theorem tree_shows_what_the_host_answered :
  forall (enumerate : FileSystemHandle -> option (Datatypes.list FileSystemHandle))
         (fuel : nat) (this : WebFsDirectoryHandle)
         (options : WebFsEntryListOptions) (t : WebFsTreeResult),
    default true (opt_file options) || default true (opt_dir options) = true ->
    tree enumerate fuel this options = Some t ->
    reflects enumerate
      (toFilterType (default true (opt_file options))
                    (default true (opt_dir options))) t.
Proof.
  intros enumerate fuel this options t Hfilter. unfold tree.
  destruct (_tree _ _ _ _ _ _) as [ts|] eqn:Hrun; cbn [obind]; [|discriminate].
  intros [= <-]. eapply _tree_reflects; [|exact Hrun].
  destruct (default true (opt_file options)), (default true (opt_dir options));
    try reflexivity; discriminate.
Qed.

Lemma tree_shows_what_the_host_answered_witness :
  exists t,
    tree enumerate_tree 3 (Fixtures.root_of Fixtures.two_level)
         (mkListOptions None (Some false) (Some 0%Z)) = Some t
    /\ reflects enumerate_tree f_file t.
Proof.
  eexists. split; [vm_compute; reflexivity|].
  exact (tree_shows_what_the_host_answered enumerate_tree 3
           (Fixtures.root_of Fixtures.two_level)
           (mkListOptions None (Some false) (Some 0%Z)) _ eq_refl eq_refl).
Defined.

(** *** A pattern with a leading slash *)

(** X21: a pattern that begins with a slash has an empty first segment,
    which the matcher refuses: glob returns no file when the directory has
    no subdirectory, and fails as soon as it has one, because the
    matcher's error is not caught. *)
Theorem glob_with_leading_slash :
  forall (isMatch : string -> string -> bool)
         (q r : FileSystemHandle -> PermissionMode -> PermissionState)
         (this : WebFsDirectoryHandle) (rest : string) (k : nat),
    glob isMatch q r enumerate_tree (S k) this (String "/" rest)
    = match _filterEntry f_dir (values (_handle this)) with
      | [] => Some []
      | _ :: _ => None
      end.
Proof.
  intros isMatch q r this rest k. unfold glob. cbn [String.eqb Js.split].
  rewrite Ascii.eqb_refl. cbn [_glob enumerate_tree obind].
  destruct (Z.eqb_spec (Z.of_nat 0)
              (Z.of_nat (List.length ("" :: Js.split "/"%char rest)) - 1)) as [E|_].
  { pose proof (split_length_positive rest). cbn [List.length] in E. lia. }
  cbn [nth_error Js.strict_eq String.eqb].
  destruct (_filterEntry f_dir (values (_handle this))) as [|d ds]; reflexivity.
Qed.

